(** * A shallow embedding of [CircuitDiagramGenerator] (src/app.py)

    Python strings are sequences of code points; we model them as [list N].
    Patterns and fixed labels are written as UTF-8 string literals and decoded
    by [utf8].  The generator object is a record threaded through its methods;
    [ET.SubElement] appends to the children of the root [svg] element, which
    the drawing routines thread as explicit state. *)

From Stdlib Require Import List NArith ZArith String Ascii Bool Lia.
From Stdlib Require Import Numbers.DecimalString Numbers.DecimalZ.
Import ListNotations.

Open Scope N_scope.

(** ** Code points *)

Definition cp := N.
Definition pystr := list cp.

Definition cont (a : ascii) : N := N.land (N_of_ascii a) 63.

(** UTF-8 decoding of a (well-formed) string literal into code points. *)
Fixpoint utf8 (s : string) : pystr :=
  match s with
  | EmptyString => []
  | String a s1 =>
      let b0 := N_of_ascii a in
      if b0 <? 128 then b0 :: utf8 s1
      else if b0 <? 224 then
        match s1 with
        | String a1 s2 =>
            (N.land b0 31 * 64 + cont a1) :: utf8 s2
        | EmptyString => []
        end
      else if b0 <? 240 then
        match s1 with
        | String a1 (String a2 s3) =>
            (N.land b0 15 * 4096 + cont a1 * 64 + cont a2) :: utf8 s3
        | _ => []
        end
      else
        match s1 with
        | String a1 (String a2 (String a3 s4)) =>
            (N.land b0 7 * 262144 + cont a1 * 4096 + cont a2 * 64 + cont a3)
              :: utf8 s4
        | _ => []
        end
  end.

(** [\d] on a [str] pattern: a character of Unicode category Nd.  Every Nd
    run is a block of consecutive code points; this is the Unicode 15 table
    (Python 3.12 and later). *)
Definition nd_runs : list (N * N) :=
  [(0x30, 0x39); (0x660, 0x669); (0x6F0, 0x6F9); (0x7C0, 0x7C9);
   (0x966, 0x96F); (0x9E6, 0x9EF); (0xA66, 0xA6F); (0xAE6, 0xAEF);
   (0xB66, 0xB6F); (0xBE6, 0xBEF); (0xC66, 0xC6F); (0xCE6, 0xCEF);
   (0xD66, 0xD6F); (0xDE6, 0xDEF); (0xE50, 0xE59); (0xED0, 0xED9);
   (0xF20, 0xF29); (0x1040, 0x1049); (0x1090, 0x1099); (0x17E0, 0x17E9);
   (0x1810, 0x1819); (0x1946, 0x194F); (0x19D0, 0x19D9); (0x1A80, 0x1A89);
   (0x1A90, 0x1A99); (0x1B50, 0x1B59); (0x1BB0, 0x1BB9); (0x1C40, 0x1C49);
   (0x1C50, 0x1C59); (0xA620, 0xA629); (0xA8D0, 0xA8D9); (0xA900, 0xA909);
   (0xA9D0, 0xA9D9); (0xA9F0, 0xA9F9); (0xAA50, 0xAA59); (0xABF0, 0xABF9);
   (0xFF10, 0xFF19); (0x104A0, 0x104A9); (0x10D30, 0x10D39);
   (0x11066, 0x1106F); (0x110F0, 0x110F9); (0x11136, 0x1113F);
   (0x111D0, 0x111D9); (0x112F0, 0x112F9); (0x11450, 0x11459);
   (0x114D0, 0x114D9); (0x11650, 0x11659); (0x116C0, 0x116C9);
   (0x11730, 0x11739); (0x118E0, 0x118E9); (0x11950, 0x11959);
   (0x11C50, 0x11C59); (0x11D50, 0x11D59); (0x11DA0, 0x11DA9);
   (0x11F50, 0x11F59); (0x16A60, 0x16A69); (0x16AC0, 0x16AC9);
   (0x16B50, 0x16B59); (0x1D7CE, 0x1D7FF); (0x1E140, 0x1E149);
   (0x1E2F0, 0x1E2F9); (0x1E4F0, 0x1E4F9); (0x1E950, 0x1E959);
   (0x1FBF0, 0x1FBF9)].

Definition is_decimal (c : cp) : bool :=
  existsb (fun r => (fst r <=? c) && (c <=? snd r)) nd_runs.

(** Literal matching under [re.IGNORECASE] for a [str] pattern: an uncased
    pattern character matches itself; an ASCII capital matches every
    character whose simple lowercase is its lowercase, plus sre's extra
    equivalences (i ~ dotless i, s ~ long s, k ~ Kelvin sign). *)
Definition ignore_eq (p c : cp) : bool :=
  if (65 <=? p) && (p <=? 90) then
    (c =? p) || (c =? p + 32)
    || ((p =? 73) && ((c =? 0x130) || (c =? 0x131)))
    || ((p =? 83) && (c =? 0x17F))
    || ((p =? 75) && (c =? 0x212A))
  else c =? p.

(** ** Component patterns: a group of literal alternatives and designators *)

(** One alternative of a group: literal characters, optionally followed by
    [\d*]. *)
Record alt := Alt { alt_lits : pystr; alt_digits : bool }.

Definition lit (s : string) : alt := Alt (utf8 s) false.
Definition desig (s : string) : alt := Alt (utf8 s) true.

Fixpoint match_lits (ls s : pystr) : option (pystr * pystr) :=
  match ls, s with
  | [], _ => Some ([], s)
  | p :: ls', c :: s' =>
      if ignore_eq p c then
        match match_lits ls' s' with
        | Some (m, r) => Some (c :: m, r)
        | None => None
        end
      else None
  | _ :: _, [] => None
  end.

(** Greedy [\d*]. *)
Fixpoint take_digits (s : pystr) : pystr * pystr :=
  match s with
  | c :: s' =>
      if is_decimal c then let '(m, r) := take_digits s' in (c :: m, r)
      else ([], s)
  | [] => ([], [])
  end.

Definition match_alt (a : alt) (s : pystr) : option (pystr * pystr) :=
  match match_lits (alt_lits a) s with
  | Some (m, r) =>
      if alt_digits a then let '(d, r') := take_digits r in Some (m ++ d, r')
      else Some (m, r)
  | None => None
  end.

(** Alternatives are tried in order; the first that matches wins. *)
Fixpoint match_group (alts : list alt) (s : pystr) : option (pystr * pystr) :=
  match alts with
  | [] => None
  | a :: alts' =>
      match match_alt a s with
      | Some mr => Some mr
      | None => match_group alts' s
      end
  end.

(** [re.findall]: scan left to right; after a match resume at its end,
    otherwise advance one character. *)
Fixpoint findall_fuel (fuel : nat) (alts : list alt) (s : pystr) : list pystr :=
  match fuel with
  | O => []
  | S fuel' =>
      match s with
      | [] => []
      | c :: s' =>
          match match_group alts s with
          | Some (m, r) => m :: findall_fuel fuel' alts r
          | None => findall_fuel fuel' alts s'
          end
      end
  end.

Definition findall (alts : list alt) (s : pystr) : list pystr :=
  findall_fuel (List.length s) alts s.

(** The keys of [patterns], in dict order. *)
Inductive kind :=
| resistor | capacitor | inductor | battery | led | switch | ground
| voltage_source | current_source.

Definition kinds : list kind :=
  [resistor; capacitor; inductor; battery; led; switch; ground;
   voltage_source; current_source].

Definition pattern (k : kind) : list alt :=
  match k with
  | resistor => [lit "抵抗"; lit "レジスタ"; desig "R"]
  | capacitor => [lit "コンデンサ"; lit "キャパシタ"; desig "C"]
  | inductor => [lit "インダクタ"; lit "コイル"; desig "L"]
  | battery => [lit "電池"; lit "バッテリー"; lit "電源"]
  | led => [lit "LED"; lit "発光ダイオード"]
  | switch => [lit "スイッチ"; lit "SW"]
  | ground => [lit "グランド"; lit "GND"; lit "アース"]
  | voltage_source => [lit "電圧源"; desig "V"]
  | current_source => [lit "電流源"; desig "I"]
  end.

(** ** Components, connections and the generator object *)

Record component := Component {
  ctype : kind;
  name : pystr;
  cx : Z;
  cy : Z
}.

Record connection := Connection { cfrom : pystr; cto : pystr }.

Record generator := Generator {
  components : list component;
  connections : list connection;
  grid_size : Z;
  svg_width : Z;
  svg_height : Z
}.

(** [CircuitDiagramGenerator()] *)
Definition new_generator : generator :=
  Generator [] [] 50 800 600.

(** [_calculate_positions]: spacing = width // (n + 1); the i-th component
    (0-indexed) goes to x = spacing * (i + 1), y = height // 2. *)
Fixpoint place (spacing ycoord : Z) (i : Z) (cs : list component)
  : list component :=
  match cs with
  | [] => []
  | c :: cs' =>
      Component (ctype c) (name c) (spacing * (i + 1)) ycoord
        :: place spacing ycoord (i + 1) cs'
  end.

Definition calculate_positions (g : generator) : generator :=
  match components g with
  | [] => g
  | cs =>
      let spacing := (svg_width g / (Z.of_nat (List.length cs) + 1))%Z in
      Generator (place spacing (svg_height g / 2)%Z 0 cs)
        (connections g) (grid_size g) (svg_width g) (svg_height g)
  end.

(** ** Connection patterns: [(\w+)A(\w+)B] *)

(** Every connection pattern has the shape [(\w+)A(\w+)B] with literal [A]
    (non-empty) and [B] (possibly empty), matched without flags.  [\w] is the
    Unicode word-character test of Python ([str.isalnum] or underscore); its
    table is not reproduced here, so the model takes it as a parameter and
    every result below holds for any choice of it. *)
Section Connections.

Variable is_word : cp -> bool.

Fixpoint word_len (s : pystr) : nat :=
  match s with
  | c :: s' => if is_word c then S (word_len s') else O
  | [] => O
  end.

Fixpoint strip_prefix (p s : pystr) : option pystr :=
  match p, s with
  | [], _ => Some s
  | a :: p', c :: s' => if a =? c then strip_prefix p' s' else None
  | _ :: _, [] => None
  end.

(** Second group: greedy [\w+], backtracking one character at a time until
    [B] follows. *)
Fixpoint try_group2 (B : pystr) (k : nat) (s : pystr) : option (pystr * pystr) :=
  match k with
  | O => None
  | S k' =>
      match strip_prefix B (skipn k s) with
      | Some r => Some (firstn k s, r)
      | None => try_group2 B k' s
      end
  end.

(** First group: greedy [\w+], backtracking until [A] and the rest match. *)
Fixpoint try_group1 (A B : pystr) (k : nat) (s : pystr)
  : option (pystr * pystr * pystr) :=
  match k with
  | O => None
  | S k' =>
      match strip_prefix A (skipn k s) with
      | Some s2 =>
          match try_group2 B (word_len s2) s2 with
          | Some (g2, r) => Some (firstn k s, g2, r)
          | None => try_group1 A B k' s
          end
      | None => try_group1 A B k' s
      end
  end.

Definition match_conn (A B : pystr) (s : pystr) : option (pystr * pystr * pystr) :=
  try_group1 A B (word_len s) s.

Fixpoint findall_conn_fuel (fuel : nat) (A B : pystr) (s : pystr)
  : list (pystr * pystr) :=
  match fuel with
  | O => []
  | S fuel' =>
      match s with
      | [] => []
      | _ :: s' =>
          match match_conn A B s with
          | Some (g1, g2, r) => (g1, g2) :: findall_conn_fuel fuel' A B r
          | None => findall_conn_fuel fuel' A B s'
          end
      end
  end.

Definition findall_conn (A B : pystr) (s : pystr) : list (pystr * pystr) :=
  findall_conn_fuel (List.length s) A B s.

End Connections.

(** [connection_patterns], as the pairs of literals [(A, B)]. *)
Definition connection_patterns : list (pystr * pystr) :=
  [(utf8 "と", utf8 "を接続");
   (utf8 "から", utf8 "へ");
   (utf8 "→", []);
   (utf8 "-", []);
   (utf8 "に", utf8 "を繋ぐ")].

(** ** [parse_input] *)

Definition fallback_components : list component :=
  [Component battery (utf8 "電池") 100 200;
   Component resistor (utf8 "抵抗") 300 200;
   Component led (utf8 "LED") 500 200].

Definition detect_components (text : pystr) : list component :=
  flat_map (fun k => map (fun m => Component k m 0 0) (findall (pattern k) text))
    kinds.

Definition detect_connections (is_word : cp -> bool) (text : pystr)
  : list connection :=
  flat_map (fun ab => map (fun '(a, b) => Connection a b)
                        (findall_conn is_word (fst ab) (snd ab) text))
    connection_patterns.

Definition parse_input (is_word : cp -> bool) (g : generator) (text : pystr)
  : generator :=
  let comps := detect_components text in
  let comps := match comps with [] => fallback_components | _ => comps end in
  calculate_positions
    (Generator comps (detect_connections is_word text)
       (grid_size g) (svg_width g) (svg_height g)).

(** Extraction as the request handler runs it: a fresh generator. *)
Definition extract (is_word : cp -> bool) (text : pystr) : generator :=
  parse_input is_word new_generator text.

(** ASCII upper-casing of a code point, and of a component's name. *)
Definition ascii_upper (c : cp) : cp :=
  if ((97 <=? c) && (c <=? 122))%N then (c - 32)%N else c.

Definition upper_name (c : component) : component :=
  Component (ctype c) (map ascii_upper (name c)) (cx c) (cy c).

(** ** SVG elements and drawing *)

Open Scope string_scope.

(** [str(n)] for a Python int. *)
Definition str (z : Z) : string := NilEmpty.string_of_int (Z.to_int z).

(** An element: tag, attributes in insertion order, optional text. *)
Record elem := Elem {
  tag : string;
  attrs : list (string * string);
  text : option pystr
}.

(** The children of the root [svg] element, threaded through the drawing
    routines; [ET.SubElement(svg, ...)] appends one child. *)
Definition Draw := list elem -> list elem.

Definition sub_element (t : string) (a : list (string * string))
  (txt : option pystr) : Draw :=
  fun kids => app kids [Elem t a txt].

Definition skip : Draw := fun kids => kids.
Definition dseq (d1 d2 : Draw) : Draw := fun kids => d2 (d1 kids).
Notation "d1 ;; d2" := (dseq d1 d2) (at level 61, right associativity).

Fixpoint for_each {A} (f : A -> Draw) (l : list A) : Draw :=
  match l with
  | [] => skip
  | a :: l' => f a ;; for_each f l'
  end.

(** The attribute dict of every [line] in the source. *)
Definition line_attrs (x1 y1 x2 y2 : Z) (sw : string) : list (string * string) :=
  [("x1", str x1); ("y1", str y1); ("x2", str x2); ("y2", str y2);
   ("stroke", "black"); ("stroke-width", sw)].

Definition line (x1 y1 x2 y2 : Z) (sw : string) : Draw :=
  sub_element "line" (line_attrs x1 y1 x2 y2 sw) None.

Definition label (x y : Z) (size fill : string) (txt : pystr) : Draw :=
  sub_element "text"
    [("x", str x); ("y", str y); ("text-anchor", "middle");
     ("font-family", "Arial"); ("font-size", size); ("fill", fill)]
    (Some txt).

Fixpoint join_space (l : list string) : string :=
  match l with
  | [] => ""
  | [s] => s
  | s :: l' => s ++ " " ++ join_space l'
  end.

Definition pt (px py : Z) : string := str px ++ "," ++ str py.

Local Open Scope Z_scope.

Definition draw_resistor (x y : Z) (nm : pystr) : Draw :=
  let points :=
    map (fun i => pt (x - 30 + i * 10) (y + (if Z.odd i then 10 else -10)))
      [0; 1; 2; 3; 4; 5; 6] in
  sub_element "polyline"
    [("points", join_space points); ("fill", "none"); ("stroke", "black");
     ("stroke-width", "2")] None ;;
  line (x - 40) y (x - 30) y "2" ;;
  line (x + 30) y (x + 40) y "2" ;;
  label x (y - 20) "12" "black" nm.

Definition draw_capacitor (x y : Z) (nm : pystr) : Draw :=
  line (x - 5) (y - 20) (x - 5) (y + 20) "3" ;;
  line (x + 5) (y - 20) (x + 5) (y + 20) "3" ;;
  line (x - 40) y (x - 5) y "2" ;;
  line (x + 5) y (x + 40) y "2" ;;
  label x (y - 30) "12" "black" nm.

Definition draw_inductor (x y : Z) (nm : pystr) : Draw :=
  for_each (fun i =>
      let c := x - 15 + i * 10 in
      sub_element "path"
        [("d", "M " ++ str c ++ " " ++ str y ++ " A 5 5 0 0 1 "
                 ++ str (c + 10) ++ " " ++ str y);
         ("fill", "none"); ("stroke", "black"); ("stroke-width", "2")] None)
    [0; 1; 2; 3] ;;
  line (x - 40) y (x - 15) y "2" ;;
  line (x + 15) y (x + 40) y "2" ;;
  label x (y - 20) "12" "black" nm.

Definition draw_battery (x y : Z) (nm : pystr) : Draw :=
  line (x + 5) (y - 20) (x + 5) (y + 20) "3" ;;
  line (x - 5) (y - 10) (x - 5) (y + 10) "3" ;;
  line (x - 40) y (x - 5) y "2" ;;
  line (x + 5) y (x + 40) y "2" ;;
  label (x + 15) (y + 5) "14" "red" (utf8 "+") ;;
  label (x - 15) (y + 5) "14" "blue" (utf8 "-") ;;
  label x (y - 30) "12" "black" nm.

Definition draw_led (x y : Z) (nm : pystr) : Draw :=
  sub_element "polygon"
    [("points", pt (x - 15) (y - 10) ++ " " ++ pt (x - 15) (y + 10) ++ " "
                  ++ pt (x + 5) y);
     ("fill", "none"); ("stroke", "black"); ("stroke-width", "2")] None ;;
  line (x + 5) (y - 10) (x + 5) (y + 10) "2" ;;
  line (x - 40) y (x - 15) y "2" ;;
  line (x + 5) y (x + 40) y "2" ;;
  sub_element "path"
    [("d", "M " ++ str (x + 10) ++ " " ++ str (y - 15) ++ " L " ++ str (x + 15)
             ++ " " ++ str (y - 20) ++ " M " ++ str (x + 12) ++ " "
             ++ str (y - 20) ++ " L " ++ str (x + 15) ++ " " ++ str (y - 20)
             ++ " L " ++ str (x + 15) ++ " " ++ str (y - 17));
     ("fill", "none"); ("stroke", "orange"); ("stroke-width", "1")] None ;;
  label x (y - 30) "12" "black" nm.

Definition draw_switch (x y : Z) (nm : pystr) : Draw :=
  sub_element "circle"
    [("cx", str (x - 15)); ("cy", str y); ("r", "2"); ("fill", "black")] None ;;
  sub_element "circle"
    [("cx", str (x + 15)); ("cy", str y); ("r", "2"); ("fill", "black")] None ;;
  line (x - 15) y (x + 10) (y - 10) "2" ;;
  line (x - 40) y (x - 15) y "2" ;;
  line (x + 15) y (x + 40) y "2" ;;
  label x (y - 25) "12" "black" nm.

Definition draw_ground (x y : Z) (nm : pystr) : Draw :=
  line x y x (y + 20) "2" ;;
  for_each (fun il =>
      let '(i, len) := il in
      line (x - len / 2) (y + 20 + i * 4) (x + len / 2) (y + 20 + i * 4) "2")
    [(0, 20); (1, 12); (2, 6)] ;;
  line (x - 40) y x y "2" ;;
  label x (y - 10) "12" "black" nm.

Definition draw_generic (x y : Z) (nm : pystr) : Draw :=
  sub_element "rect"
    [("x", str (x - 20)); ("y", str (y - 15)); ("width", "40");
     ("height", "30"); ("fill", "lightgray"); ("stroke", "black");
     ("stroke-width", "2")] None ;;
  line (x - 40) y (x - 20) y "2" ;;
  line (x + 20) y (x + 40) y "2" ;;
  label x (y + 5) "10" "black" nm.

(** [_draw_component]: the [else] branch takes the two source kinds. *)
Definition draw_component (c : component) : Draw :=
  let '(x, y, nm) := (cx c, cy c, name c) in
  match ctype c with
  | resistor => draw_resistor x y nm
  | capacitor => draw_capacitor x y nm
  | inductor => draw_inductor x y nm
  | battery => draw_battery x y nm
  | led => draw_led x y nm
  | switch => draw_switch x y nm
  | ground => draw_ground x y nm
  | _ => draw_generic x y nm
  end.

(** Adjacent pairs [(components[i], components[i + 1])]. *)
Fixpoint adjacent (cs : list component) : list (component * component) :=
  match cs with
  | c1 :: ((c2 :: _) as rest) => (c1, c2) :: adjacent rest
  | _ => []
  end.

Definition connect (p : component * component) : Draw :=
  let '(c1, c2) := p in line (cx c1 + 40) (cy c1) (cx c2 - 40) (cy c2) "2".

(** The three segments from [last] down, across and up to [first]. *)
Definition return_path (first last : component) : Draw :=
  line (cx last) (cy last + 20) (cx last) (cy last + 80) "2" ;;
  line (cx last) (cy last + 80) (cx first) (cy first + 80) "2" ;;
  line (cx first) (cy first + 80) (cx first) (cy first + 20) "2".

Definition draw_connections (cs : list component) : Draw :=
  if (List.length cs <? 2)%nat then skip
  else
    for_each connect (adjacent cs) ;;
    match cs with
    | first :: _ :: _ :: _ => return_path first (List.last cs first)
    | _ => skip
    end.

(** ** Serialisation *)

(** XML 1.0 [Char]. *)
Definition xml_char (c : cp) : bool :=
  ((c =? 9) || (c =? 10) || (c =? 13)
   || ((0x20 <=? c) && (c <=? 0xD7FF))
   || ((0xE000 <=? c) && (c <=? 0xFFFD))
   || ((0x10000 <=? c) && (c <=? 0x10FFFF)))%N.

Definition ascii_cps (s : string) : pystr :=
  map N_of_ascii (list_ascii_of_string s).

Definition str_ok (s : string) : bool := forallb xml_char (ascii_cps s).

Definition attr_ok (kv : string * string) : bool :=
  str_ok (fst kv) && str_ok (snd kv).

Definition elem_ok (e : elem) : bool :=
  str_ok (tag e) && forallb attr_ok (attrs e)
  && match text e with Some t => forallb xml_char t | None => true end.

(** The serialised document.  [ET.tostring] writes text unchecked and
    [minidom.parseString] raises on a character that is not an XML [Char];
    on success [toprettyxml] prints the reparsed tree, which we keep as the
    tree itself (its indentation is not modelled). *)
Record svg_doc := SvgDoc {
  root_attrs : list (string * string);
  children : list elem
}.

Definition prettify_svg (root : list (string * string)) (kids : list elem)
  : option svg_doc :=
  if forallb attr_ok root && forallb elem_ok kids then Some (SvgDoc root kids)
  else None.

Definition generate_svg (g : generator) : option svg_doc :=
  let root :=
    [("width", str (svg_width g)); ("height", str (svg_height g));
     ("xmlns", "http://www.w3.org/2000/svg")] in
  let kids :=
    (sub_element "rect"
       [("width", str (svg_width g)); ("height", str (svg_height g));
        ("fill", "white"); ("stroke", "none")] None ;;
     draw_connections (components g) ;;
     for_each draw_component (components g)) [] in
  prettify_svg root kids.

(** [generate_svg] as a method: it reads the generator and leaves it as it
    was. *)
Definition generate_svg_m (g : generator) : option svg_doc * generator :=
  (generate_svg g, g).

(** The [/generate] handler: a fresh generator, [parse_input], then
    [generate_svg]. *)
Definition render_circuit (is_word : cp -> bool) (text : pystr) : option svg_doc :=
  generate_svg (parse_input is_word new_generator text).

(** ** Auxiliary definitions for the properties *)

(** A drawing routine that only appends to the children it is given. *)
Definition appends (d : Draw) : Prop := forall kids, d kids = app kids (d []).

(** The line between two adjacent components, and the three-segment return
    path, as elements. *)
Definition conn_line (p : component * component) : elem :=
  Elem "line" (line_attrs (cx (fst p) + 40) (cy (fst p))
                 (cx (snd p) - 40) (cy (snd p)) "2") None.

Definition return_lines (first last : component) : list elem :=
  [Elem "line" (line_attrs (cx last) (cy last + 20) (cx last) (cy last + 80) "2") None;
   Elem "line" (line_attrs (cx last) (cy last + 80) (cx first) (cy first + 80) "2") None;
   Elem "line" (line_attrs (cx first) (cy first + 80) (cx first) (cy first + 20) "2") None].

(** The children of the rendered [svg]: background, wiring, icons. *)
Definition background (g : generator) : elem :=
  Elem "rect" [("width", str (svg_width g)); ("height", str (svg_height g));
               ("fill", "white"); ("stroke", "none")] None.






(** The designator letters of [R\d*], [C\d*], [L\d*], [V\d*] and [I\d*], in
    both cases, with their kinds. *)
Definition bare_designators : list (cp * kind) :=
  [(82, resistor); (114, resistor); (67, capacitor); (99, capacitor);
   (76, inductor); (108, inductor); (86, voltage_source);
   (118, voltage_source); (73, current_source); (105, current_source)]%N.

(** Whether [p] occurs in [s] at some position (the end included). *)
Fixpoint occurs (p s : pystr) : bool :=
  match s with
  | [] => if strip_prefix p [] then true else false
  | _ :: s' => (if strip_prefix p s then true else false) || occurs p s'
  end.

Definition never_at (p s : pystr) : Prop :=
  forall n, strip_prefix p (skipn n s) = None.

(** The series example of the page template, and the components extraction
    finds in it. *)
Definition series_example : pystr := utf8 "電池と抵抗とLEDを直列に接続".

Definition comps : list component :=
  [Component resistor (utf8 "抵抗") 160 300;
   Component inductor (utf8 "L") 320 300;
   Component battery (utf8 "電池") 480 300;
   Component led (utf8 "LED") 640 300].

(** Every literal of a pattern is an XML character; every component name is
    made of XML characters. *)
Definition alts_ok (alts : list alt) : bool :=
  forallb (fun a => forallb xml_char (alt_lits a)) alts.

Definition names_ok (cs : list component) : Prop :=
  Forall (fun c => forallb xml_char (name c) = true) cs.

(** ** The [/generate] route *)

(** A JSON value as [request.get_json()] returns it.  A number is kept as
    written; nothing below reads it. *)
#[warnings="-register-all"]
Inductive json :=
| JNull
| JBool (b : bool)
| JNum (digits : string)
| JStr (s : pystr)
| JArr (l : list json)
| JObj (kvs : list (pystr * json)).

(** A JSON object read into a Python dict: a key given twice keeps its last
    value. *)
Fixpoint dict_get (k : pystr) (kvs : list (pystr * json)) : option json :=
  match kvs with
  | [] => None
  | (k', v) :: kvs' =>
      match dict_get k kvs' with
      | Some v' => Some v'
      | None => if list_eq_dec N.eq_dec k k' then Some v else None
      end
  end.

(** What the handler sends back: [jsonify({'svg': svg_content})], or the
    500 response of an exception it raised. *)
Inductive response :=
| SvgResponse (doc : svg_doc)
| ServerError.

(** [generate_circuit]: [data.get('description', '')] raises when [data] is
    not a dict; [re.findall] in [parse_input] raises on a description that
    is not a [str]; [_prettify_svg] raises when the reparse fails. *)
Definition generate_circuit (is_word : cp -> bool) (data : json) : response :=
  match data with
  | JObj kvs =>
      let description :=
        match dict_get (utf8 "description") kvs with
        | Some v => v
        | None => JStr []
        end in
      match description with
      | JStr s =>
          match render_circuit is_word s with
          | Some doc => SvgResponse doc
          | None => ServerError
          end
      | _ => ServerError
      end
  | _ => ServerError
  end.

(** Words joined by the arrow of [(\w+)→(\w+)], and the pairs a left to
    right scan takes from a list of words: first and second, third and
    fourth, and so on. *)
Definition arrow : pystr := utf8 "→".

Fixpoint join_arrow (ws : list pystr) : pystr :=
  match ws with
  | [] => []
  | [w] => w
  | w :: ws' => app w (app arrow (join_arrow ws'))
  end.

Fixpoint pairs (ws : list pystr) : list (pystr * pystr) :=
  match ws with
  | a :: b :: ws' => (a, b) :: pairs ws'
  | _ => []
  end.

(** The first literal characters of the connection patterns other than the
    arrow one, and of all five. *)
Definition conn_heads : pystr := utf8 "とか-に".
Definition conn_heads_all : pystr := utf8 "とか→-に".

(** The characters [ignore_eq p] accepts. *)
Definition variants (p : cp) : list cp :=
  (if (65 <=? p) && (p <=? 90) then [p; p + 32; 0x130; 0x131; 0x17F; 0x212A]
   else [p])%N.

(** A match of [\w+]: non-empty, word characters only. *)
Definition word (is_word : cp -> bool) (w : pystr) : Prop :=
  w <> [] /\ forallb is_word w = true.

(** No alternative of [alts] can start at character [x]. *)
Definition heads_miss (alts : list alt) (x : cp) : bool :=
  forallb (fun a => match alt_lits a with
                    | p :: _ => negb (ignore_eq p x)
                    | [] => false
                    end) alts.

(** * Properties *)

Open Scope list_scope.

(** ** Basic facts *)


(** The components of [parse_input] do not depend on the word-character
    test, which only the connection patterns use. *)
Lemma parse_input_components (w1 w2 : cp -> bool) (g : generator) (t : pystr) :
  components (parse_input w1 g t) = components (parse_input w2 g t).
Proof.
  unfold parse_input, calculate_positions; simpl.
  destruct (detect_components t); reflexivity.
Qed.

Lemma nth_error_place (sp yc k : Z) (cs : list component) (i : nat) :
  nth_error (place sp yc k cs) i
  = option_map (fun c => Component (ctype c) (name c)
                           (sp * (k + Z.of_nat i + 1)) yc) (nth_error cs i).
Proof.
  revert k i; induction cs as [|c cs IH]; intros k [|i]; simpl; auto.
  - do 2 f_equal; lia.
  - rewrite IH. destruct (nth_error cs i); simpl; auto.
    do 3 f_equal; lia.
Qed.

Lemma length_place (sp yc k : Z) (cs : list component) :
  List.length (place sp yc k cs) = List.length cs.
Proof. revert k; induction cs; simpl; auto. Qed.

(** ** C1: no vocabulary match gives the fallback circuit *)

(** C1: when none of the nine component patterns matches the input, the
    extracted components are exactly battery "電池", resistor "抵抗" and
    led "LED", in that order, laid out at x = 200, 400, 600 on y = 300. *)
Theorem extract_no_match_fallback (is_word : cp -> bool) (text : pystr)
  (Hnone : forall k, findall (pattern k) text = []) :
  components (extract is_word text) =
  [Component battery (utf8 "電池") 200 300;
   Component resistor (utf8 "抵抗") 400 300;
   Component led (utf8 "LED") 600 300].
Proof.
  assert (Hd : detect_components text = [])
    by (unfold detect_components, kinds, flat_map; rewrite !Hnone; reflexivity).
  unfold extract, parse_input; rewrite Hd; reflexivity.
Qed.

Lemma extract_no_match_fallback_witness :
  (forall k, findall (pattern k) (utf8 "  ") = []) /\
  components (extract (fun _ => false) (utf8 "  ")) =
  [Component battery (utf8 "電池") 200 300;
   Component resistor (utf8 "抵抗") 400 300;
   Component led (utf8 "LED") 600 300].
Proof.
  assert (H : forall k, findall (pattern k) (utf8 "  ") = [])
    by (intros k; destruct k; reflexivity).
  split; [exact H | exact (extract_no_match_fallback (fun _ => false) _ H)].
Defined.

(** ** C2: layout *)

(** C2: on the 800 x 600 canvas, layout keeps the number and order of the
    components, their kinds and labels, and gives the component at 0-based
    index i the position x = (800 / (N + 1)) * (i + 1), y = 300. *)
Theorem calculate_positions_layout (cs : list component)
  (conns : list connection) (gs : Z) :
  let cs' := components (calculate_positions (Generator cs conns gs 800 600)) in
  List.length cs' = List.length cs /\
  forall i c, nth_error cs i = Some c ->
    nth_error cs' i =
    Some (Component (ctype c) (name c)
            (800 / (Z.of_nat (List.length cs) + 1) * (Z.of_nat i + 1)) 300).
Proof.
  destruct cs as [|c0 cs0].
  - split; [reflexivity|]. intros [|i] c H; discriminate.
  - cbv zeta. unfold calculate_positions. cbn [components].
    split; [apply length_place|].
    intros i c H. rewrite nth_error_place, H. cbn [option_map].
    do 2 f_equal; try lia.
Qed.

Lemma calculate_positions_layout_witness :
  nth_error (components (calculate_positions
                           (Generator fallback_components [] 50 800 600))) 1%nat
  = Some (Component resistor (utf8 "抵抗") 400 300).
Proof.
  exact (proj2 (calculate_positions_layout fallback_components [] 50) 1%nat _
           eq_refl).
Defined.

(** ** C5: the connection list is not rendered *)

(** C5: two generators with the same components (and canvas) render the
    same document whatever their connection lists are. *)
Theorem generate_svg_ignores_connections (cs : list component)
  (conns1 conns2 : list connection) (gs w h : Z) :
  generate_svg (Generator cs conns1 gs w h) =
  generate_svg (Generator cs conns2 gs w h).
Proof. reflexivity. Qed.

(** ** C7: rendering is deterministic *)

(** C7: [generate_svg] leaves the generator unchanged, so calling it a second
    time on the same generator yields the same document. *)
Theorem generate_svg_twice (g : generator) :
  let '(o1, g1) := generate_svg_m g in
  let '(o2, g2) := generate_svg_m g1 in
  o1 = o2 /\ g2 = g.
Proof. split; reflexivity. Qed.

(** ** C9: a single vocabulary occurrence *)

(** C9: when the pattern of kind [k] matches exactly once, with text [m], and
    no other kind's pattern matches, extraction yields the single component
    of kind [k] labelled [m] (placed at the canvas centre). *)
Theorem extract_single_match (is_word : cp -> bool) (text : pystr) (k : kind)
  (m : pystr)
  (Hk : findall (pattern k) text = [m])
  (Hothers : forall k', k' <> k -> findall (pattern k') text = []) :
  components (extract is_word text) = [Component k m 400 300].
Proof.
  assert (Hd : detect_components text = [Component k m 0 0]).
  { unfold detect_components, kinds, flat_map.
    destruct k; rewrite Hk; rewrite !Hothers by discriminate; reflexivity. }
  unfold extract, parse_input; rewrite Hd; reflexivity.
Qed.

Lemma extract_single_match_witness :
  components (extract (fun _ => true) (utf8 "R1"))
  = [Component resistor (utf8 "R1") 400 300].
Proof.
  apply extract_single_match; [reflexivity|].
  intros k' Hk; destruct k'; try reflexivity; congruence.
Defined.

(** ** C10: bare designator letters *)

(** C10: a one-letter input r, c, l, v or i (either case) is extracted as
    the single component of the matching kind labelled with that letter; the
    fallback circuit is not used. *)
Theorem extract_bare_designator (is_word : cp -> bool) (c : cp) (k : kind)
  (H : In (c, k) bare_designators) :
  components (extract is_word [c]) = [Component k [c] 400 300].
Proof.
  unfold extract; rewrite (parse_input_components is_word (fun _ => false)).
  simpl in H.
  repeat (destruct H as [H|H]; [inversion H; subst; vm_compute; reflexivity|]).
  contradiction.
Qed.

Lemma extract_bare_designator_witness :
  components (extract (fun _ => true) [114%N])
  = [Component resistor [114%N] 400 300].
Proof.
  apply extract_bare_designator. simpl. right. left. reflexivity.
Defined.

(** ** Drawing routines only append *)

Lemma sub_element_appends t a txt : appends (sub_element t a txt).
Proof. intros kids; reflexivity. Qed.

Lemma skip_appends : appends skip.
Proof. intros kids; unfold skip; now rewrite app_nil_r. Qed.

Lemma dseq_appends d1 d2 : appends d1 -> appends d2 -> appends (d1 ;; d2).
Proof.
  intros H1 H2 kids; unfold dseq.
  rewrite H1, H2, (H2 (d1 [])), app_assoc; reflexivity.
Qed.

Lemma for_each_appends {A} (f : A -> Draw) l :
  (forall a, appends (f a)) -> appends (for_each f l).
Proof.
  intros Hf; induction l; simpl; [apply skip_appends|].
  now apply dseq_appends.
Qed.

Lemma for_each_run {A} (f : A -> Draw) l :
  (forall a, appends (f a)) ->
  for_each f l [] = List.concat (map (fun a => f a []) l).
Proof.
  intros Hf; induction l as [|a l IH]; [reflexivity|].
  cbn [for_each map List.concat]; unfold dseq.
  rewrite (for_each_appends f l Hf (f a [])), IH; reflexivity.
Qed.

Lemma line_appends x1 y1 x2 y2 sw : appends (line x1 y1 x2 y2 sw).
Proof. apply sub_element_appends. Qed.

Lemma label_appends x y s f t : appends (label x y s f t).
Proof. apply sub_element_appends. Qed.

Create HintDb draw.
#[local] Hint Resolve sub_element_appends skip_appends dseq_appends
  line_appends label_appends : draw.

Lemma draw_component_appends c : appends (draw_component c).
Proof.
  destruct c as [k nm x y]; destruct k;
    cbn [draw_component cx cy name ctype];
    unfold draw_resistor, draw_capacitor, draw_inductor, draw_battery,
      draw_led, draw_switch, draw_ground, draw_generic; cbv zeta;
    repeat first [ apply dseq_appends | solve [auto with draw]
                 | apply for_each_appends; intros a;
                   try (destruct a as [i len]); solve [auto with draw] ].
Qed.

(** ** Wiring *)

Lemma return_path_appends first last : appends (return_path first last).
Proof. unfold return_path; auto with draw. Qed.

Lemma length_adjacent cs : List.length (adjacent cs) = (List.length cs - 1)%nat.
Proof.
  induction cs as [|c cs IH]; [reflexivity|].
  destruct cs as [|c' cs]; [reflexivity|].
  cbn [adjacent List.length] in *. rewrite IH. lia.
Qed.

Lemma draw_connections_run cs :
  draw_connections cs [] =
  if (List.length cs <? 2)%nat then []
  else map conn_line (adjacent cs) ++
       match cs with
       | first :: _ :: _ :: _ => return_lines first (List.last cs first)
       | _ => []
       end.
Proof.
  unfold draw_connections.
  destruct (List.length cs <? 2)%nat; [reflexivity|].
  unfold dseq.
  assert (Hc : for_each connect (adjacent cs) [] = map conn_line (adjacent cs)).
  { rewrite for_each_run by (intros []; apply line_appends).
    induction (adjacent cs) as [|[a b] l IH]; [reflexivity|].
    cbn [map List.concat]; rewrite IH; reflexivity. }
  destruct cs as [|a [|b [|c rest]]]; cbv beta iota;
    rewrite ?Hc, ?app_nil_r; try reflexivity.
  rewrite (return_path_appends a). reflexivity.
Qed.

Lemma generate_svg_children (g : generator) :
  (sub_element "rect"
     [("width", str (svg_width g)); ("height", str (svg_height g));
      ("fill", "white"); ("stroke", "none")] None ;;
   draw_connections (components g) ;;
   for_each draw_component (components g)) []
  = background g :: draw_connections (components g) []
      ++ List.concat (map (fun c => draw_component c []) (components g)).
Proof.
  unfold dseq at 1; unfold dseq.
  assert (Hd : appends (draw_connections (components g))).
  { unfold draw_connections. destruct (_ <? _)%nat; auto with draw.
    apply dseq_appends; [apply for_each_appends; intros []; apply line_appends|].
    destruct (components g) as [|a [|b [|c r]]]; unfold return_path; auto with draw. }
  rewrite Hd, for_each_appends, for_each_run by (intros; apply draw_component_appends).
  reflexivity.
Qed.

(** ** C3: wiring *)

(** C3: the wiring emitted before the icons is nothing for fewer than two
    components, the single adjacent line for two, and for N >= 3 the N - 1
    adjacent lines followed by the three return-path segments from the last
    component back to the first.  The rendered children are the background,
    this wiring, then the icons. *)
Theorem draw_connections_wiring (cs : list component) :
  ((List.length cs < 2)%nat -> draw_connections cs [] = []) /\
  (List.length cs = 2%nat ->
     exists c1 c2, cs = [c1; c2] /\ draw_connections cs [] = [conn_line (c1, c2)]) /\
  ((3 <= List.length cs)%nat ->
     exists first, hd_error cs = Some first /\
       List.length (adjacent cs) = (List.length cs - 1)%nat /\
       draw_connections cs [] =
       map conn_line (adjacent cs) ++ return_lines first (List.last cs first)) /\
  (forall g doc, components g = cs -> generate_svg g = Some doc ->
     children doc = background g :: draw_connections cs []
                      ++ List.concat (map (fun c => draw_component c []) cs)).
Proof.
  split; [|split; [|split]]; [rewrite draw_connections_run .. |].
  - intros H. apply Nat.ltb_lt in H. now rewrite H.
  - intros H. destruct cs as [|a [|b [|c rest]]]; try discriminate.
    exists a, b; split; reflexivity.
  - intros H. destruct cs as [|a [|b [|c rest]]]; cbn in H; try lia.
    exists a. split; [reflexivity|]. split; [apply length_adjacent|].
    reflexivity.
  - intros g doc <- Hg. unfold generate_svg, prettify_svg in Hg.
    rewrite generate_svg_children in Hg.
    destruct (_ && _); [|discriminate].
    injection Hg as <-. reflexivity.
Qed.

Lemma draw_connections_wiring_witness :
  draw_connections fallback_components [] =
  map conn_line (adjacent fallback_components)
    ++ return_lines (Component battery (utf8 "電池") 100 200)
         (Component led (utf8 "LED") 500 200).
Proof.
  destruct (proj1 (proj2 (proj2 (draw_connections_wiring fallback_components)))
              (le_n 3)) as [first [Hf [_ H]]].
  rewrite H. injection Hf as <-. reflexivity.
Defined.

(** ** C4: lead lines of the icons *)





(** ** Connection patterns that cannot match *)

Lemma occurs_false (p s : pystr) :
  occurs p s = false -> forall n, strip_prefix p (skipn n s) = None.
Proof.
  induction s as [|c s IH]; intros H n.
  - cbn in H. rewrite skipn_nil. destruct (strip_prefix p []); congruence.
  - cbn [occurs] in H. apply orb_false_iff in H as [H1 H2].
    destruct n as [|n]; cbn [skipn].
    + destruct (strip_prefix p (c :: s)); congruence.
    + now apply IH.
Qed.

Lemma strip_prefix_skipn (p s r : pystr) :
  strip_prefix p s = Some r -> r = skipn (List.length p) s.
Proof.
  revert s; induction p as [|a p IH]; intros s H.
  - now injection H.
  - destruct s as [|c s]; [discriminate|]. cbn in H |- *.
    destruct (a =? c)%N; [now apply IH|discriminate].
Qed.

Lemma never_at_skipn p s m : never_at p s -> never_at p (skipn m s).
Proof. intros H n. rewrite skipn_skipn. apply H. Qed.

Section NoMatch.

Variable is_word : cp -> bool.

Lemma try_group2_none (B s : pystr) k :
  never_at B s -> try_group2 B k s = None.
Proof.
  intros H; induction k as [|k IH]; [reflexivity|].
  cbn [try_group2]. rewrite H. exact IH.
Qed.

Lemma try_group1_none (A B s : pystr) k :
  never_at A s \/ never_at B s -> try_group1 is_word A B k s = None.
Proof.
  intros H; induction k as [|k IH]; [reflexivity|].
  cbn [try_group1].
  destruct (strip_prefix A (skipn (S k) s)) as [s2|] eqn:E; [|exact IH].
  destruct H as [HA|HB]; [now rewrite HA in E|].
  apply strip_prefix_skipn in E. subst s2.
  rewrite try_group2_none; [exact IH|].
  now apply never_at_skipn, never_at_skipn.
Qed.

Lemma findall_conn_none (A B s : pystr) :
  never_at A s \/ never_at B s -> findall_conn is_word A B s = [].
Proof.
  unfold findall_conn. generalize (List.length s) as fuel.
  intros fuel; revert s; induction fuel as [|fuel IH]; intros s H; [reflexivity|].
  destruct s as [|c s]; [reflexivity|].
  cbn [findall_conn_fuel]. unfold match_conn.
  rewrite try_group1_none by exact H.
  apply IH. destruct H as [H|H]; [left|right];
    exact (never_at_skipn _ _ 1 H).
Qed.

End NoMatch.

Lemma detect_connections_none (is_word : cp -> bool) (text : pystr) :
  forallb (fun ab => negb (occurs (fst ab) text) || negb (occurs (snd ab) text))
    connection_patterns = true ->
  detect_connections is_word text = [].
Proof.
  unfold detect_connections.
  induction connection_patterns as [|[A B] ps IH]; [reflexivity|].
  cbn [forallb flat_map fst snd]. intros H.
  apply andb_prop in H as [H1 H2].
  rewrite findall_conn_none, IH by
    (first [ exact H2
           | apply orb_prop in H1 as [H1|H1]; [left|right];
             intros n; apply occurs_false; now apply negb_true_iff ]).
  reflexivity.
Qed.

(** ** Rendering reads only the components and the canvas *)

Lemma generate_svg_proj (g : generator) :
  generate_svg g =
  generate_svg (Generator (components g) [] 0 (svg_width g) (svg_height g)).
Proof. destruct g; reflexivity. Qed.

Lemma calculate_positions_fields (g : generator) :
  connections (calculate_positions g) = connections g /\
  svg_width (calculate_positions g) = svg_width g /\
  svg_height (calculate_positions g) = svg_height g.
Proof.
  unfold calculate_positions; destruct (components g); repeat split.
Qed.

Lemma parse_input_dims (w : cp -> bool) (g : generator) (t : pystr) :
  svg_width (parse_input w g t) = svg_width g /\
  svg_height (parse_input w g t) = svg_height g.
Proof.
  unfold parse_input.
  destruct (calculate_positions_fields
              (Generator (match detect_components t with
                          | [] => fallback_components
                          | _ => detect_components t end)
                 (detect_connections w t) (grid_size g) (svg_width g)
                 (svg_height g))) as [_ [-> ->]].
  split; reflexivity.
Qed.

Lemma parse_input_connections (w : cp -> bool) (g : generator) (t : pystr) :
  connections (parse_input w g t) = detect_connections w t.
Proof.
  unfold parse_input. rewrite (proj1 (calculate_positions_fields _)).
  reflexivity.
Qed.

(** ** C8: the series example *)
(** C8 (counterexample): on the example, extraction yields resistor,
    inductor (the "L" of "LED"), battery and led, and no connection: "を"
    is followed by "直列に", not by "接続".  Every character of the example
    is a Python word character, so the constant word test agrees with [\w]
    on it. *)
Lemma series_example_cex :
  map ctype (components (extract (fun _ => true) series_example))
    = [resistor; inductor; battery; led] /\
  connections (extract (fun _ => true) series_example) = [].
Proof. vm_compute. split; reflexivity. Qed.

(** C8 (amended): for any word-character test, the example is extracted as
    resistor "抵抗", inductor "L", battery "電池" and led "LED" (kind-table
    order) with no connection, and renders as the background, three adjacent
    lines, the three-segment return path and four icons. *)
Theorem series_example_render (is_word : cp -> bool) :
  components (extract is_word series_example) = comps /\
  connections (extract is_word series_example) = [] /\
  List.length (adjacent comps) = 3%nat /\
  option_map children (render_circuit is_word series_example) =
  Some (background new_generator
        :: map conn_line (adjacent comps)
        ++ return_lines (Component resistor (utf8 "抵抗") 160 300)
                        (Component led (utf8 "LED") 640 300)
        ++ List.concat (map (fun c => draw_component c []) comps)).
Proof.
  assert (Hc : components (extract is_word series_example) = comps).
  { unfold extract. rewrite (parse_input_components is_word (fun _ => false)).
    vm_compute. reflexivity. }
  split; [exact Hc|]. split.
  - unfold extract. rewrite parse_input_connections.
    apply detect_connections_none. vm_compute. reflexivity.
  - split; [reflexivity|].
    unfold render_circuit. rewrite generate_svg_proj.
    destruct (parse_input_dims is_word new_generator series_example) as [-> ->].
    rewrite (parse_input_components is_word (fun _ => false)).
    vm_compute. reflexivity.
Qed.

(** ** Every rendered character is an XML character *)

Lemma xml_char_intro (c : cp) :
  (0x20 <= c <= 0xD7FF)%N \/ (0xE000 <= c <= 0xFFFD)%N
  \/ (0x10000 <= c <= 0x10FFFF)%N -> xml_char c = true.
Proof.
  unfold xml_char.
  intros [[H1 H2]|[[H1 H2]|[H1 H2]]]; apply N.leb_le in H1, H2;
    rewrite H1, H2; cbn [andb]; rewrite ?orb_true_r; reflexivity.
Qed.

Lemma str_ok_cons a s : str_ok (String a s) = xml_char (N_of_ascii a) && str_ok s.
Proof. reflexivity. Qed.

Lemma str_ok_nil : str_ok EmptyString = true.
Proof. reflexivity. Qed.

Lemma str_ok_app s1 s2 : str_ok (s1 ++ s2)%string = str_ok s1 && str_ok s2.
Proof.
  induction s1 as [|a s1 IH]; [reflexivity|].
  cbn [String.append]. rewrite !str_ok_cons, IH. apply andb_assoc.
Qed.

Lemma str_ok_str z : str_ok (str z) = true.
Proof.
  unfold str, NilEmpty.string_of_int.
  assert (Hu : forall u, str_ok (NilEmpty.string_of_uint u) = true)
    by (induction u; cbn [NilEmpty.string_of_uint]; rewrite ?str_ok_cons; auto).
  destruct (Z.to_int z); [apply Hu|]. rewrite str_ok_cons, Hu. reflexivity.
Qed.

Ltac str_ok_rw H :=
  repeat first [ rewrite str_ok_app | rewrite str_ok_str | rewrite str_ok_cons
               | rewrite str_ok_nil | rewrite H ].

Lemma draw_component_ok (c : component) :
  forallb xml_char (name c) = true ->
  forallb elem_ok (draw_component c []) = true.
Proof.
  destruct c as [k nm x y]; cbn [name]; intros Hnm.
  destruct k;
    cbv [draw_component cx cy ctype name draw_resistor draw_capacitor
      draw_inductor draw_battery draw_led draw_switch draw_ground draw_generic
      line label sub_element dseq skip for_each line_attrs pt join_space
      elem_ok attr_ok map app fst snd tag attrs text];
    cbn [forallb]; str_ok_rw Hnm; reflexivity.
Qed.

Lemma conn_line_ok p : elem_ok (conn_line p) = true.
Proof.
  cbv [conn_line line_attrs elem_ok attr_ok map fst snd tag attrs text];
    cbn [forallb]; str_ok_rw str_ok_nil; reflexivity.
Qed.

Lemma map_conn_line_ok l : forallb elem_ok (map conn_line l) = true.
Proof.
  induction l as [|p l IH]; [reflexivity|].
  cbn [map forallb]. rewrite conn_line_ok. exact IH.
Qed.

Lemma background_ok g : elem_ok (background g) = true.
Proof.
  cbv [background elem_ok attr_ok map fst snd tag attrs text];
    cbn [forallb]; str_ok_rw str_ok_nil; reflexivity.
Qed.

Lemma return_lines_ok first last : forallb elem_ok (return_lines first last) = true.
Proof.
  cbv [return_lines line_attrs elem_ok attr_ok map fst snd tag attrs text];
    cbn [forallb]; str_ok_rw str_ok_nil; reflexivity.
Qed.

Local Open Scope N_scope.

Lemma ignore_eq_xml (p c : cp) :
  xml_char p = true -> ignore_eq p c = true -> xml_char c = true.
Proof.
  unfold ignore_eq. intros Hp.
  destruct ((65 <=? p) && (p <=? 90)) eqn:Hr.
  - apply andb_true_iff in Hr as [H1 H2]. apply N.leb_le in H1, H2.
    rewrite !orb_true_iff, !andb_true_iff, !orb_true_iff, !N.eqb_eq.
    intros H; apply xml_char_intro; lia.
  - intros H; apply N.eqb_eq in H; subst; exact Hp.
Qed.

Lemma nd_runs_in_range :
  forallb (fun r => ((0x20 <=? fst r) && (snd r <=? 0xD7FF))
                    || ((0xE000 <=? fst r) && (snd r <=? 0xFFFD))
                    || ((0x10000 <=? fst r) && (snd r <=? 0x10FFFF))) nd_runs
  = true.
Proof. reflexivity. Qed.

Lemma decimal_xml (c : cp) : is_decimal c = true -> xml_char c = true.
Proof.
  unfold is_decimal. intros H. apply existsb_exists in H as [r [Hin Hr]].
  pose proof (proj1 (forallb_forall _ _) nd_runs_in_range r Hin) as Hb.
  apply andb_true_iff in Hr as [H1 H2]. apply N.leb_le in H1, H2.
  apply orb_true_iff in Hb as [Hb|Hb]; [apply orb_true_iff in Hb as [Hb|Hb]|];
    apply andb_true_iff in Hb as [H3 H4];
    apply N.leb_le in H3, H4; apply xml_char_intro; lia.
Qed.

Lemma match_lits_xml (ls s m r : pystr) :
  forallb xml_char ls = true -> match_lits ls s = Some (m, r) ->
  forallb xml_char m = true.
Proof.
  revert s m r; induction ls as [|p ls IH]; intros s m r Hls H.
  - injection H as <- <-; reflexivity.
  - destruct s as [|c s]; [discriminate|].
    cbn [match_lits] in H. cbn [forallb] in Hls.
    apply andb_true_iff in Hls as [Hp Hls].
    destruct (ignore_eq p c) eqn:Hc; [|discriminate].
    destruct (match_lits ls s) as [[m' r']|] eqn:Hm; [|discriminate].
    injection H as <- <-. cbn [forallb].
    rewrite (ignore_eq_xml p c Hp Hc). exact (IH s m' r' Hls Hm).
Qed.

Lemma take_digits_xml (s : pystr) : forallb xml_char (fst (take_digits s)) = true.
Proof.
  induction s as [|c s IH]; [reflexivity|].
  cbn [take_digits]. destruct (is_decimal c) eqn:Hc; [|reflexivity].
  destruct (take_digits s) as [d r]. cbn [fst forallb] in *.
  rewrite (decimal_xml c Hc). exact IH.
Qed.

Lemma match_group_xml (alts : list alt) (s m r : pystr) :
  alts_ok alts = true -> match_group alts s = Some (m, r) ->
  forallb xml_char m = true.
Proof.
  induction alts as [|a alts IH]; [discriminate|].
  unfold alts_ok; cbn [forallb match_group]; intros Ha H.
  apply andb_true_iff in Ha as [Ha Has].
  destruct (match_alt a s) as [[m' r']|] eqn:Hm; [|exact (IH Has H)].
  injection H as <- <-. unfold match_alt in Hm.
  destruct (match_lits (alt_lits a) s) as [[l rl]|] eqn:Hl; [|discriminate].
  pose proof (match_lits_xml _ _ _ _ Ha Hl) as Hlx.
  destruct (alt_digits a); [|injection Hm as <- <-; exact Hlx].
  pose proof (take_digits_xml rl) as Hd.
  destruct (take_digits rl) as [d r'']. injection Hm as <- <-.
  rewrite forallb_app, Hlx. exact Hd.
Qed.

Lemma findall_xml (fuel : nat) (alts : list alt) (s : pystr) :
  alts_ok alts = true ->
  Forall (fun m => forallb xml_char m = true) (findall_fuel fuel alts s).
Proof.
  intros Ha; revert s; induction fuel as [|fuel IH]; intros s; [constructor|].
  destruct s as [|c s']; [constructor|]. cbn [findall_fuel].
  destruct (match_group alts (c :: s')) as [[m r]|] eqn:Hm; [|apply IH].
  constructor; [exact (match_group_xml _ _ _ _ Ha Hm) | apply IH].
Qed.

Lemma pattern_ok (k : kind) : alts_ok (pattern k) = true.
Proof. destruct k; reflexivity. Qed.

Lemma detect_components_names (text : pystr) : names_ok (detect_components text).
Proof.
  unfold names_ok, detect_components. apply Forall_forall. intros c Hc.
  apply in_flat_map in Hc as [k [_ Hk]]. apply in_map_iff in Hk as [m [<- Hm]].
  cbn [name]. unfold findall in Hm.
  exact (proj1 (Forall_forall _ _) (findall_xml _ _ text (pattern_ok k)) m Hm).
Qed.

Lemma place_names (sp yc i : Z) (cs : list component) :
  names_ok cs -> names_ok (place sp yc i cs).
Proof.
  unfold names_ok; revert i; induction cs as [|c cs IH]; intros i H; cbn [place].
  - constructor.
  - inversion H; subst. constructor; [assumption | apply IH; assumption].
Qed.

Lemma parse_input_names (w : cp -> bool) (g : generator) (t : pystr) :
  names_ok (components (parse_input w g t)) /\ components (parse_input w g t) <> [].
Proof.
  unfold parse_input, calculate_positions. cbn [components].
  pose proof (detect_components_names t) as Hn.
  destruct (detect_components t) as [|c cs] eqn:Hd.
  - split; [|discriminate]. apply place_names.
    repeat constructor.
  - split; [apply place_names; exact Hn|]. cbn [place]; discriminate.
Qed.

Lemma forallb_concat_map {A} (f : A -> list elem) (l : list A) :
  (forall a, In a l -> forallb elem_ok (f a) = true) ->
  forallb elem_ok (List.concat (map f l)) = true.
Proof.
  induction l as [|a l IH]; intros H; [reflexivity|].
  cbn [map List.concat]. rewrite forallb_app, H by (left; reflexivity).
  apply IH. intros b Hb; apply H; right; exact Hb.
Qed.

(** ** C6: extraction and rendering never fail *)

(** C6: for every input string, extraction yields a circuit with at least
    one component (the fallback when nothing is recognised), and rendering
    it never makes the serialiser raise: the document exists, its root
    carrying the 800 x 600 canvas and the SVG namespace. *)
Theorem render_never_fails (is_word : cp -> bool) (text : pystr) :
  components (extract is_word text) <> [] /\
  exists doc, render_circuit is_word text = Some doc /\
    root_attrs doc = [("width", "800"); ("height", "600");
                      ("xmlns", "http://www.w3.org/2000/svg")].
Proof.
  destruct (parse_input_names is_word new_generator text) as [Hn Hne].
  split; [exact Hne|].
  unfold render_circuit, generate_svg, prettify_svg.
  set (g := parse_input is_word new_generator text) in *.
  destruct (parse_input_dims is_word new_generator text) as [Hw Hh].
  fold g in Hw, Hh. rewrite generate_svg_children, Hw, Hh.
  replace (forallb attr_ok _ && forallb elem_ok _) with true.
  { eexists; split; reflexivity. }
  assert (Hc : forallb elem_ok (draw_connections (components g) []) = true).
  { rewrite draw_connections_run. destruct (_ <? 2)%nat; [reflexivity|].
    rewrite forallb_app, map_conn_line_ok.
    destruct (components g) as [|a [|b [|c r]]]; try reflexivity.
    apply return_lines_ok. }
  symmetry. cbn [forallb]. rewrite background_ok, forallb_app, Hc.
  rewrite forallb_concat_map.
  - reflexivity.
  - intros c Hin. apply draw_component_ok.
    exact (proj1 (Forall_forall _ _) Hn c Hin).
Qed.

(** * Further properties of the code *)

(** ** Component detection *)

Lemma match_lits_split (ls s m r : pystr) :
  match_lits ls s = Some (m, r) -> s = m ++ r /\ List.length m = List.length ls.
Proof.
  revert s m r; induction ls as [|p ls IH]; intros s m r H.
  - injection H as <- <-; split; reflexivity.
  - destruct s as [|c s]; [discriminate|]. cbn [match_lits] in H.
    destruct (ignore_eq p c); [|discriminate].
    destruct (match_lits ls s) as [[m' r']|] eqn:Hm; [|discriminate].
    injection H as <- <-. destruct (IH s m' r' Hm) as [-> Hl].
    split; [reflexivity|]. cbn. rewrite Hl. reflexivity.
Qed.

Lemma take_digits_split (s : pystr) : s = fst (take_digits s) ++ snd (take_digits s).
Proof.
  induction s as [|c s IH]; [reflexivity|]. cbn [take_digits].
  destruct (is_decimal c); [|reflexivity].
  destruct (take_digits s) as [d r]. cbn in *. rewrite <- IH. reflexivity.
Qed.

Lemma match_group_split (alts : list alt) (s m r : pystr) :
  forallb (fun a => (0 <? List.length (alt_lits a))%nat) alts = true ->
  match_group alts s = Some (m, r) -> s = m ++ r /\ m <> [].
Proof.
  induction alts as [|a alts IH]; [discriminate|].
  cbn [forallb match_group]; intros Ha H.
  apply andb_true_iff in Ha as [Ha Has].
  destruct (match_alt a s) as [[m' r']|] eqn:Hm; [|exact (IH Has H)].
  injection H as <- <-. unfold match_alt in Hm.
  destruct (match_lits (alt_lits a) s) as [[l rl]|] eqn:Hl; [|discriminate].
  destruct (match_lits_split _ _ _ _ Hl) as [-> Hlen].
  assert (Hne : l <> []).
  { intros ->. destruct (alt_lits a); cbn in Ha, Hlen; discriminate. }
  destruct (alt_digits a).
  - pose proof (take_digits_split rl) as Hd.
    destruct (take_digits rl) as [d r'']. injection Hm as <- <-.
    cbn in Hd. rewrite Hd, app_assoc. split; [reflexivity|].
    intros E; apply app_eq_nil in E as [E _]; exact (Hne E).
  - injection Hm as <- <-. split; [reflexivity|exact Hne].
Qed.

Lemma findall_infix (fuel : nat) (alts : list alt) (s : pystr) :
  forallb (fun a => (0 <? List.length (alt_lits a))%nat) alts = true ->
  Forall (fun m => m <> [] /\ exists pre post, s = pre ++ m ++ post)
    (findall_fuel fuel alts s).
Proof.
  intros Ha; revert s; induction fuel as [|fuel IH]; intros s; [constructor|].
  destruct s as [|c s']; [constructor|]. cbn [findall_fuel].
  destruct (match_group alts (c :: s')) as [[m r]|] eqn:Hm.
  - destruct (match_group_split _ _ _ _ Ha Hm) as [Hs Hne].
    constructor.
    + split; [exact Hne|]. exists [], r. exact Hs.
    + eapply Forall_impl; [|apply IH].
      intros x [Hx [pre [post E]]]. split; [exact Hx|].
      exists (m ++ pre), post. rewrite Hs, E, app_assoc. reflexivity.
  - eapply Forall_impl; [|apply IH].
    intros x [Hx [pre [post E]]]. split; [exact Hx|].
    exists (c :: pre), post. rewrite E. reflexivity.
Qed.

Lemma pattern_nonempty (k : kind) :
  forallb (fun a => (0 <? List.length (alt_lits a))%nat) (pattern k) = true.
Proof. destruct k; reflexivity. Qed.

Lemma detect_components_infix (text : pystr) :
  Forall (fun c => name c <> [] /\ exists pre post, text = pre ++ name c ++ post)
    (detect_components text).
Proof.
  unfold detect_components. apply Forall_forall. intros c Hc.
  apply in_flat_map in Hc as [k [_ Hk]]. apply in_map_iff in Hk as [m [<- Hm]].
  exact (proj1 (Forall_forall _ _) (findall_infix _ _ text (pattern_nonempty k)) m Hm).
Qed.

Lemma place_forall (P : pystr -> Prop) (sp yc i : Z) (cs : list component) :
  Forall (fun c => P (name c)) cs -> Forall (fun c => P (name c)) (place sp yc i cs).
Proof.
  revert i; induction cs as [|c cs IH]; intros i H; cbn [place]; [constructor|].
  inversion H; subst. constructor; [assumption | apply IH; assumption].
Qed.

Lemma extract_components (is_word : cp -> bool) (text : pystr) :
  components (extract is_word text) =
  match detect_components text with
  | [] => place (800 / 4) 300 0 fallback_components
  | cs => place (800 / (Z.of_nat (List.length cs) + 1)) 300 0 cs
  end.
Proof.
  unfold extract, parse_input, calculate_positions. cbn [components].
  destruct (detect_components text); reflexivity.
Qed.

(** *** Case of ASCII letters *)

Local Open Scope N_scope.

(** A pattern literal that is not an ASCII lowercase letter. *)
Definition lit_ok (p : cp) : bool := (p <? 97) || (122 <? p).

Lemma ignore_eq_upper (p c : cp) :
  lit_ok p = true -> ignore_eq p (ascii_upper c) = ignore_eq p c.
Proof.
  unfold lit_ok, ignore_eq, ascii_upper. intros Hp.
  destruct ((97 <=? c) && (c <=? 122)) eqn:Hc; [|reflexivity].
  apply andb_true_iff in Hc as [Hc1 Hc2]. apply N.leb_le in Hc1, Hc2.
  destruct ((65 <=? p) && (p <=? 90)) eqn:Hq.
  - apply andb_true_iff in Hq as [Hq1 Hq2]. apply N.leb_le in Hq1, Hq2.
    replace (c - 32 =? p) with (c =? p + 32)
      by (destruct (N.eqb_spec (c - 32) p), (N.eqb_spec c (p + 32)); lia).
    repeat match goal with
    | |- context [N.eqb ?a ?b] =>
        replace (N.eqb a b) with false by (symmetry; apply N.eqb_neq; lia)
    end.
    rewrite ?andb_false_r, ?orb_false_r. reflexivity.
  - apply orb_true_iff in Hp as [Hp|Hp]; apply N.ltb_lt in Hp;
      apply andb_false_iff in Hq as [Hq|Hq]; apply N.leb_gt in Hq;
      destruct (N.eqb_spec (c - 32) p), (N.eqb_spec c p); reflexivity || lia.
Qed.

Lemma is_decimal_letter (c : cp) : 65 <= c <= 122 -> is_decimal c = false.
Proof.
  intros [H1 H2]. unfold is_decimal.
  assert (Hr : forallb (fun r => (122 <? fst r) || (snd r <? 65)) nd_runs = true)
    by (vm_compute; reflexivity).
  revert Hr. generalize nd_runs as l. induction l as [|[a b] l IH]; [reflexivity|].
  cbn [forallb existsb fst snd]. intros Hr. apply andb_true_iff in Hr as [Hab Hr].
  rewrite (IH Hr), orb_false_r.
  apply orb_true_iff in Hab as [Hab|Hab]; apply N.ltb_lt in Hab;
    apply andb_false_iff; [left|right]; apply N.leb_gt; lia.
Qed.

Lemma is_decimal_upper (c : cp) : is_decimal (ascii_upper c) = is_decimal c.
Proof.
  unfold ascii_upper. destruct ((97 <=? c) && (c <=? 122)) eqn:Hc; [|reflexivity].
  apply andb_true_iff in Hc as [Hc1 Hc2]. apply N.leb_le in Hc1, Hc2.
  rewrite !is_decimal_letter by lia. reflexivity.
Qed.

Definition map_pair (mr : pystr * pystr) : pystr * pystr :=
  (map ascii_upper (fst mr), map ascii_upper (snd mr)).

Lemma match_lits_upper (ls s : pystr) :
  forallb lit_ok ls = true ->
  match_lits ls (map ascii_upper s) = option_map map_pair (match_lits ls s).
Proof.
  revert s; induction ls as [|p ls IH]; intros s H; [reflexivity|].
  cbn [forallb] in H. apply andb_true_iff in H as [Hp H].
  destruct s as [|c s]; [reflexivity|]. cbn [map match_lits].
  rewrite (ignore_eq_upper p c Hp). destruct (ignore_eq p c); [|reflexivity].
  rewrite (IH s H). destruct (match_lits ls s) as [[m r]|]; reflexivity.
Qed.

Lemma take_digits_upper (s : pystr) :
  take_digits (map ascii_upper s) = map_pair (take_digits s).
Proof.
  induction s as [|c s IH]; [reflexivity|]. cbn [map take_digits].
  rewrite is_decimal_upper. destruct (is_decimal c); [|reflexivity].
  rewrite IH. destruct (take_digits s) as [m r]. reflexivity.
Qed.

Definition alts_lit_ok (alts : list alt) : bool :=
  forallb (fun a => forallb lit_ok (alt_lits a)) alts.

Lemma match_group_upper (alts : list alt) (s : pystr) :
  alts_lit_ok alts = true ->
  match_group alts (map ascii_upper s) = option_map map_pair (match_group alts s).
Proof.
  induction alts as [|a alts IH]; intros H; [reflexivity|].
  unfold alts_lit_ok in H; cbn [forallb] in H. apply andb_true_iff in H as [Ha H].
  cbn [match_group]. unfold match_alt. rewrite (match_lits_upper _ _ Ha).
  destruct (match_lits (alt_lits a) s) as [[m r]|]; cbn [option_map].
  - destruct (alt_digits a); [|reflexivity].
    cbn [map_pair fst snd]. rewrite take_digits_upper.
    destruct (take_digits r) as [d r']. cbv [map_pair fst snd option_map]. rewrite map_app. reflexivity.
  - exact (IH H).
Qed.

Lemma findall_fuel_upper (fuel : nat) (alts : list alt) (s : pystr) :
  alts_lit_ok alts = true ->
  findall_fuel fuel alts (map ascii_upper s)
  = map (map ascii_upper) (findall_fuel fuel alts s).
Proof.
  intros H. revert s; induction fuel as [|fuel IH]; intros s; [reflexivity|].
  destruct s as [|c s]; [reflexivity|].
  cbn [findall_fuel map]. change (ascii_upper c :: map ascii_upper s) with (map ascii_upper (c :: s)). rewrite (match_group_upper _ _ H).
  destruct (match_group alts (c :: s)) as [[m r]|]; cbn [option_map map_pair fst snd].
  - rewrite IH. reflexivity.
  - apply IH.
Qed.

Lemma pattern_lit_ok (k : kind) : alts_lit_ok (pattern k) = true.
Proof. destruct k; vm_compute; reflexivity. Qed.

Lemma detect_components_upper (text : pystr) :
  detect_components (map ascii_upper text)
  = map (fun c => Component (ctype c) (map ascii_upper (name c)) 0 0)
      (detect_components text).
Proof.
  unfold detect_components, findall. rewrite length_map. generalize kinds as ks.
  induction ks as [|k ks IH]; [reflexivity|]. cbn [flat_map].
  rewrite (findall_fuel_upper _ _ _ (pattern_lit_ok k)).
  rewrite IH, map_app, !map_map. reflexivity.
Qed.

Lemma place_upper (sp yc i : Z) (cs : list component) :
  place sp yc i (map (fun c => Component (ctype c) (map ascii_upper (name c)) 0 0) cs)
  = map upper_name (place sp yc i cs).
Proof.
  revert i; induction cs as [|c cs IH]; intros i; [reflexivity|].
  cbn [map place]. rewrite IH. reflexivity.
Qed.

(** X1: matching ignores the case of ASCII letters: upper-casing the ASCII
    letters of the text only upper-cases the names of the extracted
    components; their kinds, number and positions are unchanged. *)
Theorem extract_ascii_upper (is_word : cp -> bool) (text : pystr) :
  components (extract is_word (map ascii_upper text))
  = map upper_name (components (extract is_word text)).
Proof.
  rewrite !extract_components, detect_components_upper.
  destruct (detect_components text) as [|c cs]; [vm_compute; reflexivity|].
  rewrite <- place_upper. cbn [map List.length]. rewrite length_map. reflexivity.
Qed.

(** X2: when some pattern matches, every extracted component's name is a
    non-empty piece of the input text, taken verbatim (under IGNORECASE the
    name keeps the case of the text). *)
Theorem extract_names_infix (is_word : cp -> bool) (text : pystr)
  (H : detect_components text <> []) :
  Forall (fun c => name c <> [] /\ exists pre post, text = pre ++ name c ++ post)
    (components (extract is_word text)).
Proof.
  rewrite extract_components. pose proof (detect_components_infix text) as Hi.
  destruct (detect_components text) as [|c cs]; [contradiction|].
  apply (place_forall (fun nm => nm <> [] /\ exists pre post, text = pre ++ nm ++ post)).
  exact Hi.
Qed.

Lemma extract_names_infix_witness :
  detect_components (utf8 "xr2y") <> [] /\
  Forall (fun c => name c <> [] /\ exists pre post, utf8 "xr2y" = pre ++ name c ++ post)
    (components (extract (fun _ => true) (utf8 "xr2y"))).
Proof.
  assert (H : detect_components (utf8 "xr2y") <> []) by (vm_compute; discriminate).
  split; [exact H|]. exact (extract_names_infix (fun _ => true) (utf8 "xr2y") H).
Defined.

(** ** Layout of the extracted circuit *)

Local Open Scope Z_scope.

Lemma extract_placed (is_word : cp -> bool) (text : pystr) :
  exists cs, cs <> [] /\
    components (extract is_word text) =
    place (800 / (Z.of_nat (List.length cs) + 1)) 300 0 cs.
Proof.
  rewrite extract_components. destruct (detect_components text) as [|c cs].
  - exists fallback_components. split; [discriminate|reflexivity].
  - exists (c :: cs). split; [discriminate|reflexivity].
Qed.

Lemma nth_error_place0 (sp yc : Z) (cs : list component) (i : nat) (c : component) :
  nth_error (place sp yc 0 cs) i = Some c ->
  cx c = sp * (Z.of_nat i + 1) /\ cy c = yc /\ (i < List.length cs)%nat.
Proof.
  rewrite nth_error_place. destruct (nth_error cs i) as [c0|] eqn:E; [|discriminate].
  intros H; injection H as <-. cbn [cx cy]. split; [lia|split; [reflexivity|]].
  apply nth_error_Some. rewrite E. discriminate.
Qed.

(** X3: every extracted component is placed on the canvas: its x lies in
    [0, 800) and its y is 300, the middle of the 600-high canvas. *)
Theorem extract_in_canvas (is_word : cp -> bool) (text : pystr) :
  Forall (fun c => 0 <= cx c < 800 /\ cy c = 300) (components (extract is_word text)).
Proof.
  destruct (extract_placed is_word text) as [cs [_ ->]].
  apply Forall_forall. intros c Hc. apply In_nth_error in Hc as [i Hi].
  apply nth_error_place0 in Hi as [-> [-> Hlt]]. split; [|reflexivity].
  set (n := Z.of_nat (List.length cs)).
  assert (Hn : Z.of_nat i + 1 <= n) by lia.
  assert (Hsp : 0 <= 800 / (n + 1)) by (apply Z.div_pos; lia).
  assert (Hle : (n + 1) * (800 / (n + 1)) <= 800) by (apply Z.mul_div_le; lia).
  split; [nia|].
  destruct (Z.eq_dec (800 / (n + 1)) 0) as [E|E]; [rewrite E; lia|nia].
Qed.

(** X4: with fewer than 800 components the spacing is at least 1, so the
    components stand strictly left to right in list order. *)
Theorem extract_left_to_right (is_word : cp -> bool) (text : pystr)
  (i j : nat) (ci cj : component)
  (Hn : Z.of_nat (List.length (components (extract is_word text))) < 800)
  (Hij : (i < j)%nat)
  (Hi : nth_error (components (extract is_word text)) i = Some ci)
  (Hj : nth_error (components (extract is_word text)) j = Some cj) :
  cx ci < cx cj.
Proof.
  destruct (extract_placed is_word text) as [cs [_ E]].
  rewrite E in Hn, Hi, Hj. rewrite length_place in Hn.
  apply nth_error_place0 in Hi as [-> _]. apply nth_error_place0 in Hj as [-> _].
  assert (Hsp : 1 <= 800 / (Z.of_nat (List.length cs) + 1))
    by (apply Z.div_le_lower_bound; lia).
  nia.
Qed.

Lemma extract_left_to_right_witness :
  cx (Component resistor (utf8 "R") 266 300) < cx (Component capacitor (utf8 "C") 532 300).
Proof.
  apply (extract_left_to_right (fun _ => true) (utf8 "RC") 0 1); vm_compute; reflexivity.
Defined.

(** X5: with 800 or more components the spacing 800 // (n + 1) is 0, and
    every component is placed at x = 0: the icons all overlap. *)
Theorem extract_collapse (is_word : cp -> bool) (text : pystr)
  (Hn : 800 <= Z.of_nat (List.length (components (extract is_word text)))) :
  Forall (fun c => cx c = 0 /\ cy c = 300) (components (extract is_word text)).
Proof.
  destruct (extract_placed is_word text) as [cs [_ E]].
  rewrite E in Hn |- *. rewrite length_place in Hn.
  apply Forall_forall. intros c Hc. apply In_nth_error in Hc as [i Hi].
  apply nth_error_place0 in Hi as [-> [-> _]]. split; [|reflexivity].
  rewrite Z.div_small by lia. reflexivity.
Qed.

Lemma extract_collapse_witness :
  Forall (fun c => cx c = 0 /\ cy c = 300)
    (components (extract (fun _ => true) (repeat 82%N 800))).
Proof.
  apply extract_collapse. rewrite extract_components. vm_compute. discriminate.
Defined.

Lemma adjacent_place (sp yc i : Z) (cs : list component) :
  Forall (fun p => cx (snd p) = cx (fst p) + sp) (adjacent (place sp yc i cs)).
Proof.
  revert i; induction cs as [|c cs IH]; intros i; [constructor|].
  cbn [place]. destruct cs as [|c' cs']; [constructor|].
  specialize (IH (i + 1)). cbn [place] in IH |- *. cbn [adjacent].
  constructor; [cbn [fst snd cx]; lia|exact IH].
Qed.

Lemma spacing_gt_80 (n : Z) : 0 <= n -> (80 <? 800 / (n + 1)) = (n <? 9).
Proof.
  intros H0. destruct (Z.ltb_spec n 9) as [H|H].
  - assert (n = 0 \/ n = 1 \/ n = 2 \/ n = 3 \/ n = 4 \/ n = 5 \/ n = 6
            \/ n = 7 \/ n = 8) as Hc by lia.
    repeat destruct Hc as [-> | Hc]; try reflexivity. subst; reflexivity.
  - apply Z.ltb_ge. transitivity (800 / 10); [|reflexivity].
    apply Z.div_le_compat_l; lia.
Qed.

(** X6: a connecting line from x + 40 of one component to x - 40 of the
    next runs left to right exactly when fewer than 9 components are
    extracted; from 9 on (spacing at most 80) it has zero or negative
    length and the icons touch or overlap. *)
Theorem extract_wire_direction (is_word : cp -> bool) (text : pystr) :
  let cs := components (extract is_word text) in
  Forall (fun p => (cx (fst p) + 40 <? cx (snd p) - 40) = (Z.of_nat (List.length cs) <? 9))
    (adjacent cs).
Proof.
  cbv zeta. destruct (extract_placed is_word text) as [cs [_ ->]].
  rewrite length_place.
  eapply Forall_impl; [|apply adjacent_place].
  intros p Hp. rewrite Hp, <- spacing_gt_80 by lia.
  destruct (Z.ltb_spec (cx (fst p) + 40) (cx (fst p) + 800 / (Z.of_nat (List.length cs) + 1) - 40));
  destruct (Z.ltb_spec 80 (800 / (Z.of_nat (List.length cs) + 1))); lia.
Qed.

(** ** Connection detection *)

Local Open Scope N_scope.

Lemma never_at_head (A s : pystr) :
  A <> [] -> ~ In (hd 0 A) s -> never_at A s.
Proof.
  destruct A as [|a A]; [contradiction|]. cbn [hd]. intros _ H n.
  destruct (skipn n s) as [|c r] eqn:E; [reflexivity|]. cbn [strip_prefix].
  destruct (a =? c) eqn:Ea; [|reflexivity].
  exfalso; apply N.eqb_eq in Ea; subst c. apply H.
  rewrite <- (firstn_skipn n s), E. apply in_or_app; right; left; reflexivity.
Qed.

Lemma occurs_head (A s : pystr) :
  A <> [] -> ~ In (hd 0 A) s -> occurs A s = false.
Proof.
  destruct A as [|a A]; [contradiction|]. cbn [hd]. intros _.
  induction s as [|c s IH]; intros H; [reflexivity|].
  cbn [occurs strip_prefix]. destruct (a =? c) eqn:Ea.
  - exfalso; apply N.eqb_eq in Ea; subst c. apply H; left; reflexivity.
  - cbn. apply IH. intros Hin; apply H; right; exact Hin.
Qed.

Lemma not_in_forallb (a : cp) (heads text : pystr) :
  forallb (fun c => negb (existsb (N.eqb c) heads)) text = true ->
  existsb (N.eqb a) heads = true -> ~ In a text.
Proof.
  intros H Ha Hin. pose proof (proj1 (forallb_forall _ _) H a Hin) as Hn.
  cbv beta in Hn. rewrite Ha in Hn. discriminate.
Qed.

(** X7: a text with none of the characters と, か, →, - and に (the first
    literal character of each connection pattern) yields no connection. *)
Theorem detect_connections_no_separator (is_word : cp -> bool) (text : pystr)
  (H : forallb (fun c => negb (existsb (N.eqb c) conn_heads_all)) text = true) :
  detect_connections is_word text = [].
Proof.
  apply detect_connections_none. unfold connection_patterns.
  cbn [forallb fst snd].
  assert (Hocc : forall A, A <> [] -> existsb (N.eqb (hd 0 A)) conn_heads_all = true ->
                 occurs A text = false).
  { intros A HA Hh. apply occurs_head; [exact HA|]. exact (not_in_forallb _ _ _ H Hh). }
  rewrite (Hocc (utf8 "と")), (Hocc (utf8 "から")), (Hocc (utf8 "→")),
    (Hocc (utf8 "-")), (Hocc (utf8 "に")) by (reflexivity || discriminate).
  reflexivity.
Qed.

Lemma detect_connections_no_separator_witness :
  detect_connections (fun _ => true) (utf8 "R1、C2の回路") = [].
Proof.
  apply detect_connections_no_separator. vm_compute. reflexivity.
Defined.

Lemma skipn_length_app {A} (x t : list A) : skipn (List.length x) (x ++ t) = t.
Proof. induction x as [|a x IH]; [reflexivity|exact IH]. Qed.

Lemma firstn_length_app {A} (x t : list A) : firstn (List.length x) (x ++ t) = x.
Proof. induction x as [|a x IH]; [reflexivity|cbn; rewrite IH; reflexivity]. Qed.

Lemma strip_prefix_app (p t : pystr) : strip_prefix p (p ++ t) = Some t.
Proof.
  induction p as [|a p IH]; [reflexivity|]. cbn. rewrite N.eqb_refl. exact IH.
Qed.

Lemma strip_prefix_inv (p s r : pystr) : strip_prefix p s = Some r -> s = p ++ r.
Proof.
  revert s; induction p as [|a p IH]; intros s H.
  - injection H as <-; reflexivity.
  - destruct s as [|c s]; [discriminate|]. cbn in H.
    destruct (a =? c) eqn:E; [|discriminate]. apply N.eqb_eq in E; subst c.
    cbn. rewrite (IH s H). reflexivity.
Qed.

Lemma arrow_eq : arrow = [0x2192].
Proof. reflexivity. Qed.

Lemma join_arrow_cons2 (x y : pystr) (r : list pystr) :
  join_arrow (x :: y :: r) = x ++ arrow ++ join_arrow (y :: r).
Proof. reflexivity. Qed.

Lemma join_arrow_cons (y : pystr) (r : list pystr) :
  join_arrow (y :: r) = y ++ match r with [] => [] | _ => arrow ++ join_arrow r end.
Proof. destruct r; [rewrite app_nil_r|]; reflexivity. Qed.

Lemma in_join_arrow (c : cp) (ws : list pystr) :
  In c (join_arrow ws) -> c = 0x2192 \/ exists w, In w ws /\ In c w.
Proof.
  induction ws as [|w ws IH]; [contradiction|].
  rewrite join_arrow_cons. intros H. apply in_app_or in H as [H|H].
  - right. exists w. split; [left; reflexivity|exact H].
  - destruct ws as [|w' ws']; [contradiction|].
    rewrite arrow_eq in H. destruct H as [<-|H]; [left; reflexivity|].
    destruct (IH H) as [E|[w0 [Hw Hc]]]; [left; exact E|].
    right. exists w0. split; [right; exact Hw|exact Hc].
Qed.

Section Arrow.

Variable is_word : cp -> bool.
Hypothesis Harrow : is_word 0x2192 = false.

Lemma word_len_app (x t : pystr) :
  forallb is_word x = true -> word_len is_word (x ++ t) = (List.length x + word_len is_word t)%nat.
Proof.
  induction x as [|c x IH]; intros H; [reflexivity|].
  cbn [forallb] in H. apply andb_true_iff in H as [Hc H].
  cbn. rewrite Hc, IH by exact H. reflexivity.
Qed.

Lemma word_len_arrow (t : pystr) : word_len is_word (arrow ++ t) = 0%nat.
Proof. rewrite arrow_eq. cbn. rewrite Harrow. reflexivity. Qed.

Lemma try_group2_at (B s r : pystr) (k : nat) :
  k <> 0%nat -> strip_prefix B (skipn k s) = Some r ->
  try_group2 B k s = Some (firstn k s, r).
Proof. destruct k as [|k]; [contradiction|]. intros _ H. cbn [try_group2]. rewrite H. reflexivity. Qed.

Lemma try_group1_at (A B s s2 g2 r : pystr) (k : nat) :
  k <> 0%nat -> strip_prefix A (skipn k s) = Some s2 ->
  try_group2 B (word_len is_word s2) s2 = Some (g2, r) ->
  try_group1 is_word A B k s = Some (firstn k s, g2, r).
Proof.
  destruct k as [|k]; [contradiction|]. intros _ H1 H2. cbn [try_group1]. rewrite H1, H2. reflexivity.
Qed.

Lemma findall_conn_fuel_none (fuel : nat) (A B s : pystr) :
  never_at A s -> findall_conn_fuel is_word fuel A B s = [].
Proof.
  revert s; induction fuel as [|fuel IH]; intros s H; [reflexivity|].
  destruct s as [|c s]; [reflexivity|].
  cbn [findall_conn_fuel]. unfold match_conn.
  rewrite try_group1_none by (left; exact H).
  apply IH. exact (never_at_skipn _ _ 1 H).
Qed.

Lemma no_arrow_in_word (w : pystr) : forallb is_word w = true -> ~ In 0x2192 w.
Proof.
  intros H Hin. pose proof (proj1 (forallb_forall _ _) H _ Hin) as E.
  rewrite Harrow in E. discriminate.
Qed.

Lemma findall_arrow_chain (n : nat) (ws : list pystr) (fuel : nat) :
  (List.length ws <= n)%nat -> Forall (word is_word) ws ->
  (List.length (join_arrow ws) <= fuel)%nat ->
  findall_conn_fuel is_word fuel arrow [] (join_arrow ws) = pairs ws.
Proof.
  revert ws fuel; induction n as [|n IH]; intros ws fuel Hn Hw Hf.
  { destruct ws; [destruct fuel; reflexivity|cbn in Hn; lia]. }
  destruct ws as [|x [|y r]].
  - destruct fuel; reflexivity.
  - inversion Hw as [|? ? [Hx Hxw] _]; subst. cbn [join_arrow pairs].
    apply findall_conn_fuel_none. apply never_at_head; [rewrite arrow_eq; discriminate|].
    rewrite arrow_eq. exact (no_arrow_in_word x Hxw).
  - inversion Hw as [|? ? [Hx Hxw] Hw']; subst.
    inversion Hw' as [|? ? [Hy Hyw] Hr]; subst.
    set (R := match r with [] => [] | _ => arrow ++ join_arrow r end).
    assert (Hwl : word_len is_word R = 0%nat)
      by (subst R; destruct r; [reflexivity|apply word_len_arrow]).
    assert (HJ : join_arrow (y :: r) = y ++ R) by apply join_arrow_cons.
    rewrite join_arrow_cons2, HJ in Hf |- *.
    assert (Hm : match_conn is_word arrow [] (x ++ arrow ++ y ++ R) = Some (x, y, R)).
    { unfold match_conn. rewrite word_len_app, word_len_arrow, Nat.add_0_r by exact Hxw.
      assert (H2 : try_group2 [] (word_len is_word (y ++ R)) (y ++ R) = Some (y, R)).
      { rewrite word_len_app, Hwl, Nat.add_0_r by exact Hyw.
        pose proof (try_group2_at [] (y ++ R) R (List.length y)) as E.
        rewrite firstn_length_app in E. apply E; [|rewrite skipn_length_app; reflexivity].
        destruct y; [contradiction|discriminate]. }
      pose proof (try_group1_at arrow [] (x ++ arrow ++ y ++ R) (y ++ R) y R
                    (List.length x)) as E.
      rewrite firstn_length_app in E. apply E; [|rewrite skipn_length_app; apply strip_prefix_app|exact H2].
      destruct x; [contradiction|discriminate]. }
    destruct fuel as [|fuel]; [destruct x; [contradiction|cbn in Hf; lia]|].
    destruct x as [|c x']; [contradiction|].
    cbn [findall_conn_fuel app]. cbn [app] in Hm. rewrite Hm.
    cbn [pairs]. f_equal.
    rewrite !length_app in Hf. cbn [List.length] in Hf.
    subst R. destruct r as [|z r'].
    + destruct fuel; reflexivity.
    + rewrite arrow_eq in Hf |- *. cbn [app List.length] in Hf |- *.
      destruct fuel as [|fuel]; [lia|].
      cbn [findall_conn_fuel]. unfold match_conn at 1. cbn [word_len].
      rewrite Harrow. cbn [try_group1].
      apply IH; [cbn in Hn |- *; lia|exact Hr|lia].
Qed.

End Arrow.

(** X8: words of word characters joined by →, none containing と, か, - or
    に, yield the connections first to second, third to fourth, and so on:
    after a match the scan resumes past the second word, so "a→b→c" gives
    only a→b and "a→b→c→d" gives a→b and c→d. *)
Theorem detect_arrow_chain (is_word : cp -> bool) (ws : list pystr)
  (Harrow : is_word 0x2192 = false)
  (Hws : forallb (fun w => (0 <? List.length w)%nat
                           && forallb (fun c => is_word c && negb (existsb (N.eqb c) conn_heads)) w)
           ws = true) :
  detect_connections is_word (join_arrow ws) = map (fun '(a, b) => Connection a b) (pairs ws).
Proof.
  assert (Hw : Forall (word is_word) ws).
  { apply Forall_forall. intros w Hin.
    pose proof (proj1 (forallb_forall _ _) Hws w Hin) as H. cbv beta in H.
    apply andb_true_iff in H as [H1 H2]. split.
    - intros ->. discriminate.
    - apply forallb_forall. intros c Hc.
      pose proof (proj1 (forallb_forall _ _) H2 c Hc) as Hc'. cbv beta in Hc'.
      apply andb_true_iff in Hc' as [Hc' _]. exact Hc'. }
  assert (Hnot : forall a, existsb (N.eqb a) conn_heads = true -> ~ In a (join_arrow ws)).
  { intros a Ha Hin. apply in_join_arrow in Hin as [->|[w [Hw' Hc]]]; [discriminate|].
    pose proof (proj1 (forallb_forall _ _) Hws w Hw') as H. cbv beta in H.
    apply andb_true_iff in H as [_ H].
    pose proof (proj1 (forallb_forall _ _) H a Hc) as Hc'. cbv beta in Hc'.
    rewrite Ha, andb_false_r in Hc'. discriminate. }
  assert (Hnone : forall A B, A <> [] -> existsb (N.eqb (hd 0 A)) conn_heads = true ->
                  findall_conn is_word A B (join_arrow ws) = []).
  { intros A B HA Hh. apply findall_conn_none. left.
    apply never_at_head; [exact HA|]. exact (Hnot _ Hh). }
  assert (Hp : findall_conn is_word (utf8 "→") [] (join_arrow ws) = pairs ws).
  { exact (findall_arrow_chain is_word Harrow (List.length ws) ws _ (le_n _) Hw (le_n _)). }
  unfold detect_connections, connection_patterns. cbn [flat_map fst snd].
  rewrite (Hnone (utf8 "と")), (Hnone (utf8 "から")), Hp, (Hnone (utf8 "-")),
    (Hnone (utf8 "に")) by (reflexivity || discriminate).
  cbn [map app]. rewrite app_nil_r. reflexivity.
Qed.

Lemma detect_arrow_chain_witness :
  detect_connections (fun c => negb (c =? 0x2192)) (join_arrow [utf8 "R1"; utf8 "C1"; utf8 "L1"])
  = [Connection (utf8 "R1") (utf8 "C1")].
Proof.
  apply (detect_arrow_chain (fun c => negb (c =? 0x2192))); reflexivity.
Defined.

Section ConnSpec.

Variable is_word : cp -> bool.

Lemma word_len_le (s : pystr) : (word_len is_word s <= List.length s)%nat.
Proof.
  induction s as [|c s IH]; [reflexivity|]. cbn. destruct (is_word c); lia.
Qed.

Lemma firstn_words (k : nat) (s : pystr) :
  (k <= word_len is_word s)%nat -> forallb is_word (firstn k s) = true.
Proof.
  revert k; induction s as [|c s IH]; intros k H; [destruct k; reflexivity|].
  destruct k as [|k]; [reflexivity|]. cbn in H |- *.
  destruct (is_word c); [|lia]. apply IH. lia.
Qed.

Lemma firstn_word (k : nat) (s : pystr) :
  k <> 0%nat -> (k <= word_len is_word s)%nat -> word is_word (firstn k s).
Proof.
  intros Hk H. split; [|exact (firstn_words k s H)].
  intros E. apply (f_equal (@List.length cp)) in E.
  rewrite length_firstn in E. pose proof (word_len_le s). cbn in E. lia.
Qed.

Lemma try_group2_spec (B s g r : pystr) (k : nat) :
  (k <= word_len is_word s)%nat -> try_group2 B k s = Some (g, r) ->
  word is_word g /\ s = g ++ B ++ r.
Proof.
  induction k as [|k IH]; intros Hk H; [discriminate|].
  cbn [try_group2] in H.
  destruct (strip_prefix B (skipn (S k) s)) as [r'|] eqn:E; [|apply IH; [lia|exact H]].
  injection H as <- <-. split; [exact (firstn_word (S k) s ltac:(discriminate) Hk)|].
  apply strip_prefix_inv in E. rewrite <- E. exact (eq_sym (firstn_skipn (S k) s)).
Qed.

Lemma try_group1_spec (A B s g1 g2 r : pystr) (k : nat) :
  (k <= word_len is_word s)%nat -> try_group1 is_word A B k s = Some (g1, g2, r) ->
  word is_word g1 /\ word is_word g2 /\ s = g1 ++ A ++ g2 ++ B ++ r.
Proof.
  induction k as [|k IH]; intros Hk H; [discriminate|].
  cbn [try_group1] in H.
  destruct (strip_prefix A (skipn (S k) s)) as [s2|] eqn:E; [|apply IH; [lia|exact H]].
  destruct (try_group2 B (word_len is_word s2) s2) as [[g r']|] eqn:E2;
    [|apply IH; [lia|exact H]].
  injection H as <- <- <-.
  destruct (try_group2_spec B s2 g r' _ (le_n _) E2) as [Hg Hs2].
  split; [exact (firstn_word (S k) s ltac:(discriminate) Hk)|]. split; [exact Hg|].
  apply strip_prefix_inv in E. rewrite Hs2 in E. rewrite <- E.
  exact (eq_sym (firstn_skipn (S k) s)).
Qed.

Lemma findall_conn_fuel_spec (fuel : nat) (A B s : pystr) :
  Forall (fun gg => word is_word (fst gg) /\ word is_word (snd gg) /\
            exists pre post, s = pre ++ fst gg ++ A ++ snd gg ++ B ++ post)
    (findall_conn_fuel is_word fuel A B s).
Proof.
  revert s; induction fuel as [|fuel IH]; intros s; [constructor|].
  destruct s as [|c s']; [constructor|]. cbn [findall_conn_fuel].
  destruct (match_conn is_word A B (c :: s')) as [[[g1 g2] r]|] eqn:Hm.
  - unfold match_conn in Hm.
    destruct (try_group1_spec _ _ _ _ _ _ _ (le_n _) Hm) as [H1 [H2 Hs]].
    constructor.
    + split; [exact H1|]. split; [exact H2|]. exists [], r. exact Hs.
    + eapply Forall_impl; [|apply IH]. cbv beta.
      intros gg [Ha [Hb [pre [post E]]]]. split; [exact Ha|]. split; [exact Hb|].
      exists (g1 ++ A ++ g2 ++ B ++ pre), post. rewrite Hs, E, <- !app_assoc.
      reflexivity.
  - eapply Forall_impl; [|apply IH]. cbv beta.
    intros gg [Ha [Hb [pre [post E]]]]. split; [exact Ha|]. split; [exact Hb|].
    exists (c :: pre), post. rewrite E. reflexivity.
Qed.

End ConnSpec.

(** X9: every extracted connection comes from a piece of the text made of
    its two endpoints around the literals A and B of one connection pattern
    [(\w+)A(\w+)B]; both endpoints are non-empty strings of word
    characters. *)
Theorem detect_connections_words (is_word : cp -> bool) (text : pystr) :
  Forall (fun c => word is_word (cfrom c) /\ word is_word (cto c) /\
            exists A B pre post, In (A, B) connection_patterns /\
              text = pre ++ cfrom c ++ A ++ cto c ++ B ++ post)
    (detect_connections is_word text).
Proof.
  unfold detect_connections. apply Forall_forall. intros c Hc.
  apply in_flat_map in Hc as [[A B] [HAB Hc]].
  apply in_map_iff in Hc as [[g1 g2] [<- Hg]]. cbn [cfrom cto fst snd] in *.
  destruct (proj1 (Forall_forall _ _) (findall_conn_fuel_spec is_word _ A B text) _ Hg)
    as [H1 [H2 [pre [post E]]]].
  split; [exact H1|]. split; [exact H2|]. exists A, B, pre, post. split; assumption.
Qed.

(** ** Designators with digits *)

Lemma take_digits_all (d : pystr) : forallb is_decimal d = true -> take_digits d = (d, []).
Proof.
  induction d as [|x d IH]; intros H; [reflexivity|].
  cbn [forallb] in H. apply andb_true_iff in H as [Hx H].
  cbn [take_digits]. rewrite Hx, IH by exact H. reflexivity.
Qed.

Lemma ignore_eq_variants (p x : cp) : ignore_eq p x = true -> In x (variants p).
Proof.
  unfold ignore_eq, variants. destruct ((65 <=? p) && (p <=? 90)).
  - rewrite !orb_true_iff, !andb_true_iff, !orb_true_iff, !N.eqb_eq.
    intros [[[[E|E]|[_ [E|E]]]|[_ E]]|[_ E]]; subst; cbn; tauto.
  - intros E. apply N.eqb_eq in E. subst. left; reflexivity.
Qed.

Lemma match_group_miss (alts : list alt) (x : cp) (s : pystr) :
  heads_miss alts x = true -> match_group alts (x :: s) = None.
Proof.
  induction alts as [|a alts IH]; intros H; [reflexivity|].
  unfold heads_miss in H. cbn [forallb] in H. apply andb_true_iff in H as [Ha H].
  cbn [match_group]. unfold match_alt.
  destruct (alt_lits a) as [|p ps]; [discriminate|]. cbn [match_lits].
  apply negb_true_iff in Ha. rewrite Ha. apply IH. exact H.
Qed.

Lemma findall_fuel_miss (fuel : nat) (alts : list alt) (s : pystr) :
  forallb (heads_miss alts) s = true -> findall_fuel fuel alts s = [].
Proof.
  revert s; induction fuel as [|fuel IH]; intros s H; [reflexivity|].
  destruct s as [|x s]; [reflexivity|]. cbn [forallb] in H.
  apply andb_true_iff in H as [Hx H]. cbn [findall_fuel].
  rewrite match_group_miss by exact Hx. apply IH. exact H.
Qed.

Lemma heads_not_decimal (k : kind) :
  forallb (fun a => match alt_lits a with
                    | p :: _ => forallb (fun v => negb (is_decimal v)) (variants p)
                    | [] => false
                    end) (pattern k) = true.
Proof. destruct k; reflexivity. Qed.

Lemma heads_miss_decimal (k : kind) (x : cp) :
  is_decimal x = true -> heads_miss (pattern k) x = true.
Proof.
  intros Hx. unfold heads_miss. apply forallb_forall. intros a Ha.
  pose proof (proj1 (forallb_forall _ _) (heads_not_decimal k) a Ha) as H.
  cbv beta in H |- *. destruct (alt_lits a) as [|p ps]; [discriminate|].
  destruct (ignore_eq p x) eqn:E; [|reflexivity].
  apply ignore_eq_variants in E.
  pose proof (proj1 (forallb_forall _ _) H x E) as Hn. cbv beta in Hn.
  rewrite Hx in Hn. discriminate.
Qed.

Lemma findall_digits_miss (k : kind) (c : cp) (d : pystr) :
  heads_miss (pattern k) c = true -> forallb is_decimal d = true ->
  findall (pattern k) (c :: d) = [].
Proof.
  intros Hc Hd. apply findall_fuel_miss. cbn [forallb]. rewrite Hc.
  apply forallb_forall. intros x Hx. apply heads_miss_decimal.
  exact (proj1 (forallb_forall _ _) Hd x Hx).
Qed.

Lemma findall_fuel_nil (fuel : nat) (alts : list alt) : findall_fuel fuel alts [] = [].
Proof. destruct fuel; reflexivity. Qed.

Lemma led_miss (c : cp) (d : pystr) :
  forallb is_decimal d = true -> c = 76 \/ c = 108 ->
  findall (pattern led) (c :: d) = [].
Proof.
  intros Hd Hc. unfold findall. cbn [List.length findall_fuel].
  assert (Hm : match_group (pattern led) (c :: d) = None).
  { destruct d as [|x d']; [destruct Hc as [->| ->]; reflexivity|].
    cbn [forallb] in Hd. apply andb_true_iff in Hd as [Hx _].
    assert (Hn : ignore_eq 69 x = false).
    { destruct (ignore_eq 69 x) eqn:E; [|reflexivity].
      apply ignore_eq_variants in E. cbn in E.
      repeat (destruct E as [E|E]; [subst x; discriminate|]). contradiction. }
    destruct Hc as [-> | ->]; cbv -[ignore_eq]; rewrite Hn; reflexivity. }
  rewrite Hm. apply findall_fuel_miss. apply forallb_forall. intros x Hx.
  apply heads_miss_decimal. exact (proj1 (forallb_forall _ _) Hd x Hx).
Qed.

Lemma findall_designator (c : cp) (k : kind) (d : pystr)
  (H : In (c, k) bare_designators) (Hd : forallb is_decimal d = true) :
  findall (pattern k) (c :: d) = [c :: d] /\
  forall k', k' <> k -> findall (pattern k') (c :: d) = [].
Proof.
  split.
  - unfold findall. cbn [List.length findall_fuel].
    cbn in H. repeat (destruct H as [H|H]; [injection H as <- <-;
      cbn; rewrite take_digits_all by exact Hd; cbn; rewrite findall_fuel_nil; reflexivity|]).
    contradiction.
  - intros k' Hk'.
    cbn in H. repeat (destruct H as [H|H]; [injection H as <- <-;
      destruct k'; solve [ exfalso; apply Hk'; reflexivity
                         | apply findall_digits_miss; [reflexivity|exact Hd]
                         | apply led_miss; [exact Hd|now (left + right)] ] |]).
    contradiction.
Qed.

(** X10: a designator letter R, C, L, V or I (either case) followed by any
    run of decimal digits (Unicode [\d], not only 0-9) is extracted as one
    component of the matching kind, named by the whole input: the greedy
    [\d*] takes every digit and no other pattern matches a digit. *)
Theorem extract_designator_digits (is_word : cp -> bool) (c : cp) (k : kind) (d : pystr)
  (H : In (c, k) bare_designators) (Hd : forallb is_decimal d = true) :
  components (extract is_word (c :: d)) = [Component k (c :: d) 400 300].
Proof.
  destruct (findall_designator c k d H Hd) as [Hk Hothers].
  rewrite extract_components.
  assert (E : detect_components (c :: d) = [Component k (c :: d) 0 0]).
  { unfold detect_components, kinds, flat_map.
    destruct k; rewrite Hk; rewrite !Hothers by discriminate; reflexivity. }
  rewrite E. reflexivity.
Qed.

Lemma extract_designator_digits_witness :
  components (extract (fun _ => true) (utf8 "R١٢"))
  = [Component resistor (utf8 "R١٢") 400 300].
Proof.
  apply (extract_designator_digits (fun _ => true) 82 resistor); vm_compute; [left|]; reflexivity.
Defined.

(** ** Icon labels and the [/generate] route *)

Local Open Scope Z_scope.

(** X11: every icon routine ends with its label: a black Arial text
    element centred (text-anchor middle) on the component's x, whose text is
    the component's name, at a vertical offset from its y and in a font size
    fixed by the kind alone. *)
Theorem icon_ends_with_label (k : kind) :
  exists dy size, forall nm x y,
    List.last (draw_component (Component k nm x y) []) (Elem "" [] None) =
    Elem "text" [("x", str x); ("y", str (y + dy)); ("text-anchor", "middle");
                 ("font-family", "Arial"); ("font-size", size); ("fill", "black")]
      (Some nm).
Proof.
  destruct k; do 2 eexists; intros nm x y;
    cbv [draw_component cx cy ctype name draw_resistor draw_capacitor
      draw_inductor draw_battery draw_led draw_switch draw_ground draw_generic
      line label sub_element dseq skip for_each line_attrs app List.last];
    reflexivity.
Qed.

Lemma render_circuit_some (is_word : cp -> bool) (text : pystr) :
  exists doc, render_circuit is_word text = Some doc.
Proof.
  destruct (parse_input_names is_word new_generator text) as [Hn _].
  unfold render_circuit, generate_svg, prettify_svg.
  set (g := parse_input is_word new_generator text) in *.
  destruct (parse_input_dims is_word new_generator text) as [Hw Hh].
  fold g in Hw, Hh. rewrite generate_svg_children, Hw, Hh.
  replace (forallb attr_ok _ && forallb elem_ok _) with true; [eexists; reflexivity|].
  assert (Hc : forallb elem_ok (draw_connections (components g) []) = true).
  { rewrite draw_connections_run. destruct (_ <? 2)%nat; [reflexivity|].
    rewrite forallb_app, map_conn_line_ok.
    destruct (components g) as [|a [|b [|c r]]]; try reflexivity.
    apply return_lines_ok. }
  symmetry. cbn [forallb]. rewrite background_ok, forallb_app, Hc.
  rewrite forallb_concat_map; [reflexivity|].
  intros c Hin. apply draw_component_ok. exact (proj1 (Forall_forall _ _) Hn c Hin).
Qed.

(** X13: the [/generate] handler answers a JSON object whose
    "description" is a string with the document rendered from it, and one
    with no "description" with the document rendered from the empty text
    (the fallback circuit); it ends in a server error when the body is not
    a JSON object or the description is not a string. *)
Theorem generate_circuit_response (is_word : cp -> bool) (data : json) :
  match data with
  | JObj kvs =>
      match dict_get (utf8 "description") kvs with
      | None => exists doc, render_circuit is_word [] = Some doc /\
                  generate_circuit is_word data = SvgResponse doc
      | Some (JStr s) => exists doc, render_circuit is_word s = Some doc /\
                  generate_circuit is_word data = SvgResponse doc
      | Some _ => generate_circuit is_word data = ServerError
      end
  | _ => generate_circuit is_word data = ServerError
  end.
Proof.
  destruct data as [| | | |l|kvs]; try reflexivity.
  unfold generate_circuit.
  destruct (dict_get (utf8 "description") kvs) as [v|].
  - destruct v; try reflexivity.
    destruct (render_circuit_some is_word s) as [doc E].
    exists doc. rewrite E. split; reflexivity.
  - destruct (render_circuit_some is_word []) as [doc E].
    exists doc. rewrite E. split; reflexivity.
Qed.
